(** * maxprotein: filter, greedy and exhaustive protein maximisation

    A shallow embedding of [maxprotein.hh]: the [Food] class, the
    [FoodVector] helpers and the three algorithms [filter_food_vector],
    [greedy_max_protein] and [exhaustive_max_protein]; then
    [sum_food_vector], the loader [load_usda_abbrev] and the pipeline of
    [main] in [maxprotein_main.cc].

    Modelling conventions.
    - A C++ [int] is a [Z]; signed overflow is undefined behaviour in C++ and
      is reported as the fault [SignedOverflow] by [int_add] (32-bit [int]).
    - A [FoodVector] (vector of shared pointers to immutable [Food] objects)
      is a [list Food]; [v[i]] is the list lookup [v !! i], and an index
      outside the vector is the fault [OutOfRange].
    - A local [int] declared without an initialiser is an [option]: [None]
      until the first assignment; reading [None] is the fault [UninitRead].
    - A failed [assert] is the fault [AssertionFailed].
    - Vector sizes are stored in an [int] by the source; sizes are natural
      numbers here (vectors of fewer than 2^31 elements).
    - The trace output on [std::cout] of the exhaustive search is left out.
    - A stream is the string of the characters not yet read; the file of
      the loader is its content, or [None] when it cannot be opened.
    - The numeric parse of the loader goes through a [double]; it is a
      parameter of the loader, and what is proved holds for every parse. *)

From stdpp Require Import base numbers list strings sorting.
From Stdlib Require Import ZArith Lia Ascii.

Local Open Scope Z_scope.

(** ** Outcomes of a run *)

Inductive fault : Set :=
  | UninitRead
  | OutOfRange
  | SignedOverflow
  | AssertionFailed.

Inductive outcome (A : Type) : Type :=
  | Ok (a : A)
  | Fault (e : fault).

Arguments Ok {A} a.
Arguments Fault {A} e.

#[global] Instance outcome_ret : MRet outcome := λ A a, Ok a.

#[global] Instance outcome_bind : MBind outcome := λ A B k m,
  match m with
  | Ok a => k a
  | Fault e => Fault e
  end.

(** Reading a local variable that may still be indeterminate. *)
Definition read {A : Type} (v : option A) : outcome A :=
  match v with
  | Some a => Ok a
  | None => Fault UninitRead
  end.

(** [v[i]] on a vector. *)
Definition at_index {A : Type} (v : list A) (i : nat) : outcome A :=
  match v !! i with
  | Some a => Ok a
  | None => Fault OutOfRange
  end.

Definition INT_MIN : Z := - 2 ^ 31.
Definition INT_MAX : Z := 2 ^ 31 - 1.

(** [a + b] on [int]. *)
Definition int_add (a b : Z) : outcome Z :=
  if bool_decide (INT_MIN ≤ a + b ≤ INT_MAX) then Ok (a + b)
  else Fault SignedOverflow.

(** [for (int i = start; i < start + count; i++) body], the body threading
    a state and possibly faulting. *)
Fixpoint for_loop {St : Type} (count : nat) (i : nat)
    (body : nat → St → outcome St) (s : St) : outcome St :=
  match count with
  | O => Ok s
  | S k => s' ← body i s; for_loop k (S i) body s'
  end.

(** ** The Food class *)

Record Food : Set := mkFood {
  description : string;
  amount : string;
  amount_g : Z;
  kcal : Z;
  protein_g : Z
}.

(** The assertions of the constructor. *)
Definition Food_inv (f : Food) : Prop :=
  description f ≠ "" ∧ amount f ≠ "" ∧
  0 ≤ amount_g f ∧ 0 ≤ kcal f ∧ 0 ≤ protein_g f.

(** [typedef std::vector<std::shared_ptr<Food>> FoodVector] *)
Abbreviation FoodVector := (list Food).

(** The two totals of [sum_food_vector], as mathematical integers. *)
Definition total_kcal_of (foods : FoodVector) : Z :=
  foldr (λ f acc, kcal f + acc) 0 foods.

Definition total_protein_of (foods : FoodVector) : Z :=
  foldr (λ f acc, protein_g f + acc) 0 foods.

(** ** filter_food_vector *)

(** The test of the [if] inside the loop. *)
Definition admitted (min_kcal max_kcal : Z) (f : Food) : bool :=
  negb (kcal f =? 0) && (min_kcal <=? kcal f) && (kcal f <=? max_kcal).

(** The [for] loop: [remaining] is [size - n]; the loop is left when
    [n = size] or when [total_size_counter] reaches [total_size]. *)
Fixpoint filter_loop (remaining : nat) (source : FoodVector)
    (min_kcal max_kcal total_size : Z)
    (n : nat) (total_size_counter : Z) (filteredFood : FoodVector)
    : outcome FoodVector :=
  match remaining with
  | O => Ok filteredFood
  | S remaining' =>
      if total_size_counter <? total_size then
        f ← at_index source n;
        if admitted min_kcal max_kcal f then
          filter_loop remaining' source min_kcal max_kcal total_size
            (S n) (total_size_counter + 1) (filteredFood ++ [f])
        else
          filter_loop remaining' source min_kcal max_kcal total_size
            (S n) total_size_counter filteredFood
      else Ok filteredFood
  end.

Definition filter_food_vector (source : FoodVector)
    (min_kcal max_kcal total_size : Z) : outcome FoodVector :=
  let size := length source in
  filter_loop size source min_kcal max_kcal total_size 0%nat 0 [].

(** The records the specification of the filter keeps. *)
Definition kept (min_kcal max_kcal : Z) (r : Food) : Prop :=
  0 < kcal r ∧ min_kcal ≤ kcal r ≤ max_kcal.

#[global] Instance kept_dec min_kcal max_kcal r :
  Decision (kept min_kcal max_kcal r).
Proof. unfold kept. apply _. Defined.

(** ** greedy_max_protein *)

Module Greedy.

(** The local variables of the function; [protein_location] and [c] are
    declared without an initialiser. *)
Record state : Type := mkState {
  todo : FoodVector;
  result : FoodVector;
  protein : Z;
  result_cal : Z;
  protein_location : option nat;
  c : option Z
}.

Definition init (foods : FoodVector) : state :=
  {| todo := foods; result := []; protein := 0; result_cal := 0;
     protein_location := None; c := None |}.

(** Body of the inner [for]: remember the first record whose protein is
    strictly greater than every protein seen before it. *)
Definition scan_body (i : nat) (st : state) : outcome state :=
  f ← at_index (todo st) i;
  if protein st <? protein_g f then
    Ok {| todo := todo st; result := result st;
          protein := protein_g f; result_cal := result_cal st;
          protein_location := Some i; c := Some (kcal f) |}
  else Ok st.

(** The [if] after the scan: the acceptance test reads [c], the
    [push_back] reads [protein_location]. *)
Definition accept (total_kcal : Z) (st : state) : outcome state :=
  cv ← read (c st);
  sum ← int_add (result_cal st) cv;
  if sum <=? total_kcal then
    loc ← read (protein_location st);
    f ← at_index (todo st) loc;
    Ok {| todo := todo st; result := result st ++ [f];
          protein := protein st; result_cal := sum;
          protein_location := protein_location st; c := c st |}
  else Ok st.

(** [todo.erase(todo.begin()+protein_location)] followed by
    [protein = 0]; erasing needs a position inside the vector. *)
Definition erase_selected (st : state) : outcome state :=
  loc ← read (protein_location st);
  if decide (loc < length (todo st))%nat then
    Ok {| todo := delete loc (todo st); result := result st;
          protein := 0; result_cal := result_cal st;
          protein_location := protein_location st; c := c st |}
  else Fault OutOfRange.

(** One iteration of the [while]. *)
Definition iteration (total_kcal : Z) (size : nat) (st : state)
    : outcome state :=
  st1 ← for_loop size 0%nat scan_body st;
  st2 ← accept total_kcal st1;
  erase_selected st2.

(** [while (size != 0) { ...; size -= 1; }] *)
Fixpoint while_loop (total_kcal : Z) (size : nat) (st : state)
    : outcome state :=
  match size with
  | O => Ok st
  | S size' =>
      st' ← iteration total_kcal size st;
      while_loop total_kcal size' st'
  end.

Definition greedy_max_protein (foods : FoodVector) (total_kcal : Z)
    : outcome FoodVector :=
  st ← while_loop total_kcal (length foods) (init foods);
  Ok (result st).

(** The selection variables name a record of [todo] and its calories. *)
Definition selected (st : state) (loc : nat) (f : Food) : Prop :=
  protein_location st = Some loc ∧ c st = Some (kcal f) ∧
  todo st !! loc = Some f.

(** What holds at the head of the [while] when every record has positive
    protein and the calories of the input fit an [int]. *)
Record loop_inv (total_kcal : Z) (st : state) : Prop := mkLoopInv {
  inv_todo : Forall (λ f, 0 ≤ kcal f ∧ 0 < protein_g f) (todo st);
  inv_protein : protein st = 0;
  inv_cal : result_cal st = total_kcal_of (result st);
  inv_nonneg : 0 ≤ result_cal st;
  inv_budget : result_cal st ≤ Z.max 0 total_kcal;
  inv_range : result_cal st + total_kcal_of (todo st) ≤ INT_MAX
}.

End Greedy.

(** ** exhaustive_max_protein *)

Module Exhaustive.

(** The variables that live across iterations of the outer loop.
    [total_calories] and [total_protein] are set to 0 once, before the
    loop, and only ever added to. *)
Record state : Type := mkState {
  total_calories : Z;
  total_protein : Z;
  total_protein_best : Z;
  result : FoodVector
}.

Definition init : state :=
  {| total_calories := 0; total_protein := 0; total_protein_best := 0;
     result := [] |}.

(** [((bits >> j) & 1) == 1] *)
Definition bit_set (bits : Z) (j : nat) : bool :=
  Z.land (Z.shiftr bits (Z.of_nat j)) 1 =? 1.

(** Body of the loop over [j] that fills [candidate]. *)
Definition pick_body (foods : FoodVector) (bits : Z) (j : nat)
    (candidate : FoodVector) : outcome FoodVector :=
  if bit_set bits j then
    f ← at_index foods j;
    Ok (candidate ++ [f])
  else Ok candidate.

(** Body of the loop over [i] that adds the candidate's calories and
    protein to the running totals. *)
Definition sum_body (candidate : FoodVector) (i : nat) (st : state)
    : outcome state :=
  f ← at_index candidate i;
  tc ← int_add (total_calories st) (kcal f);
  tp ← int_add (total_protein st) (protein_g f);
  Ok {| total_calories := tc; total_protein := tp;
        total_protein_best := total_protein_best st;
        result := result st |}.

(** Body of the loop that copies [candidate] into the cleared [result]. *)
Definition copy_body (candidate : FoodVector) (i : nat)
    (res : FoodVector) : outcome FoodVector :=
  f ← at_index candidate i;
  Ok (res ++ [f]).

(** The test on the totals and the update of the best subset. *)
Definition update (total_kcal : Z) (candidate : FoodVector) (st : state)
    : outcome state :=
  let size := length candidate in
  if total_calories st <=? total_kcal then
    if (total_protein_best st =? 0)
       || (total_protein_best st <? total_protein st) then
      res ← for_loop size 0%nat (copy_body candidate) [];
      Ok {| total_calories := total_calories st;
            total_protein := total_protein st;
            total_protein_best := total_protein st;
            result := res |}
    else Ok st
  else Ok st.

(** Body of the loop over [bits]; [candidate] is empty on entry and
    cleared on exit. *)
Definition iteration (foods : FoodVector) (total_kcal : Z) (n : nat)
    (bits : Z) (st : state) : outcome state :=
  candidate ← for_loop n 0%nat (pick_body foods bits) [];
  let size := length candidate in
  st1 ← for_loop size 0%nat (sum_body candidate) st;
  update total_kcal candidate st1.

(** [for (uint64_t bits = 0; bits < pow(2.0,n); bits++)]: [remaining]
    counts the masks still to visit, 2^n of them at entry. The source
    compares in [double]; 2^n is exact there and so is every mask below
    2^53, so the count is exact for the sizes a run can finish on. *)
Fixpoint bits_loop (foods : FoodVector) (total_kcal : Z) (n : nat)
    (remaining : nat) (bits : Z) (st : state) : outcome state :=
  match remaining with
  | O => Ok st
  | S remaining' =>
      st' ← iteration foods total_kcal n bits st;
      bits_loop foods total_kcal n remaining' ((bits + 1) mod 2 ^ 64) st'
  end.

Definition exhaustive_max_protein (foods : FoodVector) (total_kcal : Z)
    : outcome FoodVector :=
  let n := length foods in
  if decide (n < 64)%nat then
    st ← bits_loop foods total_kcal n (2 ^ n)%nat 0 init;
    Ok (result st)
  else Fault AssertionFailed.


End Exhaustive.


(** ** Inputs used in the worked scenarios *)

Module Scenario.

(** Zero-protein record behind a positive-protein one of few calories. *)
Definition lean : Food := mkFood "lean" "1 cup" 100 10 5.
Definition heavy : Food := mkFood "heavy" "1 cup" 100 1000 0.

(** A single record without protein. *)
Definition plain : Food := mkFood "plain" "1 cup" 100 10 0.

(** The three records of the worked example. *)
Definition A : Food := mkFood "A" "1 cup" 100 100 5.
Definition B : Food := mkFood "B" "1 cup" 100 200 20.
Definition C : Food := mkFood "C" "1 cup" 100 150 15.

(** Two records without protein, 100 kcal each. *)
Definition P : Food := mkFood "P" "1 cup" 100 100 0.
Definition Q : Food := mkFood "Q" "1 cup" 100 100 0.

(** The filter example: calories 0, 50, 2500 and 100. *)
Definition water : Food := mkFood "water" "1 cup" 237 0 0.
Definition apple : Food := mkFood "apple" "1 cup" 125 50 0.
Definition feast : Food := mkFood "feast" "1 plate" 900 2500 80.
Definition bread : Food := mkFood "bread" "1 slice" 40 100 4.

End Scenario.

(** ** One iteration of the greedy loop, once the scan has chosen *)

Module GreedyStep.
Import Greedy.

(** The state at the end of an iteration whose scan chose the record [f]
    at position [loc]: [f] is appended when it fits, and erased either
    way. *)
Definition step_with (total_kcal : Z) (st : state) (loc : nat) (f : Food)
    : state :=
  let fits := result_cal st + kcal f <=? total_kcal in
  {| todo := delete loc (todo st);
     result := if fits then result st ++ [f] else result st;
     protein := 0;
     result_cal := if fits then result_cal st + kcal f else result_cal st;
     protein_location := Some loc;
     c := Some (kcal f) |}.

(** Order of the result: protein does not increase. *)
Definition protein_ge (a b : Food) : Prop := protein_g b ≤ protein_g a.

End GreedyStep.

(** ** sum_food_vector *)

(** The range-[for] of [sum_food_vector]: both totals are [int]s that
    start at 0 and grow by one record at a time. *)
Fixpoint sum_loop (foods : FoodVector) (total_kcal total_protein_g : Z)
    : outcome (Z * Z) :=
  match foods with
  | [] => Ok (total_kcal, total_protein_g)
  | food :: rest =>
      k ← int_add total_kcal (kcal food);
      p ← int_add total_protein_g (protein_g food);
      sum_loop rest k p
  end.

Definition sum_food_vector (foods : FoodVector) : outcome (Z * Z) :=
  sum_loop foods 0 0.

(** ** load_usda_abbrev *)

Module Loader.

(** The constructor of [Food] with its five assertions. *)
Definition new_Food (description amount : string)
    (amount_g kcal protein_g : Z) : outcome Food :=
  if bool_decide (description ≠ "" ∧ amount ≠ "" ∧
                  0 ≤ amount_g ∧ 0 ≤ kcal ∧ 0 ≤ protein_g)
  then Ok (mkFood description amount amount_g kcal protein_g)
  else Fault AssertionFailed.

(** One [std::getline(stream, field, delim)] on a stream with the
    characters [s] left: the characters before the first [delim] are the
    field, [delim] itself is consumed, and the rest stays in the stream. *)
Fixpoint getline_split (delim : Ascii.ascii) (s : string) : string * string :=
  match s with
  | EmptyString => (EmptyString, EmptyString)
  | String ch rest =>
      if Ascii.eqb ch delim then (EmptyString, rest)
      else
        let '(field, rest') := getline_split delim rest in
        (String ch field, rest')
  end.

(** The call fails when the stream has no character left. *)
Definition getline (delim : Ascii.ascii) (s : string)
    : option (string * string) :=
  match s with
  | EmptyString => None
  | String _ _ => Some (getline_split delim s)
  end.

(** [for (std::string x; std::getline(stream, x, delim); ) v.push_back(x)].
    Every successful call consumes a character, so the number of
    characters bounds the number of calls. *)
Fixpoint getline_all (fuel : nat) (delim : Ascii.ascii) (s : string)
    : list string :=
  match fuel with
  | O => []
  | S fuel' =>
      match getline delim s with
      | None => []
      | Some (x, rest) => x :: getline_all fuel' delim rest
      end
  end.

Definition read_fields (line : string) : list string :=
  getline_all (String.length line) "^"%char line.

Definition read_lines (content : string) : list string :=
  getline_all (String.length content) "010"%char content.

(** The lambda [remove_tildes]: [None] is [false], [Some output] is
    [true] with [output] assigned. *)
Definition remove_tildes (field : string) : option string :=
  if bool_decide ((String.length field < 3)%nat ∨
                  String.get 0 field ≠ Some "~"%char ∨
                  String.get (String.length field - 1) field
                  ≠ Some "~"%char)
  then None
  else Some (String.substring 1 (String.length field - 2) field).

Section load.

(** The lambda [parse_mil] reads a [double] from the field and rounds it
    with [lround]; the floating-point conversion is a parameter. *)
Variable parse_mil : string → option Z.

(** The body of the loop over the lines: [None] is the early
    [return failure]. *)
Definition load_line (line : string) (result : FoodVector)
    : outcome (option FoodVector) :=
  let fields := read_fields line in
  if bool_decide (length fields ≠ 53%nat) then Ok None
  else
    descr_field ← at_index fields 1;
    kcal_field ← at_index fields 3;
    protein_g_field ← at_index fields 4;
    amount_g_field ← at_index fields 48;
    amount_field ← at_index fields 49;
    match remove_tildes descr_field, remove_tildes amount_field,
          parse_mil amount_g_field, parse_mil kcal_field,
          parse_mil protein_g_field with
    | Some description, Some amount, Some amount_g, Some kcal,
      Some protein_g =>
        food ← new_Food description amount amount_g kcal protein_g;
        Ok (Some (result ++ [food]))
    | _, _, _, _, _ => Ok (Some result)
    end.

Fixpoint load_lines (lines : list string) (result : FoodVector)
    : outcome (option FoodVector) :=
  match lines with
  | [] => Ok (Some result)
  | line :: rest =>
      r ← load_line line result;
      match r with
      | None => Ok None
      | Some result' => load_lines rest result'
      end
  end.

(** [file] is the content of the file at [path], [None] when the stream
    cannot be opened; the result [None] is [nullptr]. *)
Definition load_usda_abbrev (file : option string)
    : outcome (option FoodVector) :=
  match file with
  | None => Ok None
  | Some content => load_lines (read_lines content) []
  end.

End load.

End Loader.

(** ** main *)

Module Main.

Definition min_kcal : Z := 0.
Definition max_kcal : Z := 2000.
Definition total_kcal : Z := 5000.
Definition n : Z := 20.

(** The loop that adds up the calories of the result. *)
Fixpoint sum_kcal (result : FoodVector) (sum : Z) : outcome Z :=
  match result with
  | [] => Ok sum
  | x :: rest => s ← int_add sum (kcal x); sum_kcal rest s
  end.

(** [main] from the loaded vector on: filter, greedy selection, and the
    sum it prints. The timer and the output are left out. *)
Definition main_from (source : FoodVector) : outcome Z :=
  foods ← filter_food_vector source min_kcal max_kcal n;
  result ← Greedy.greedy_max_protein foods total_kcal;
  sum_kcal result 0.

End Main.

(** ** Inputs for the loader and for overflow *)

Module Samples.

(** [fields] joined by [^], the inverse of reading a line. *)
Definition join_fields (fields : list string) : string :=
  String.concat "^" fields.

(** No character of [s] is [delim]. *)
Fixpoint delim_free (delim : Ascii.ascii) (s : string) : Prop :=
  match s with
  | EmptyString => True
  | String ch rest => ch ≠ delim ∧ delim_free delim rest
  end.

(** A line of 53 fields in the layout the loader reads. *)
Definition butter_line : string :=
  String.append
    "01001^~BUTTER,WITH SALT~^x^717^0.85^x^x^x^x^x^x^x^x^x^x^x^x^"
    (String.append
       "x^x^x^x^x^x^x^x^x^x^x^x^x^x^x^x^x^x^x^x^x^x^x^x^x^x^x^x^x^x^"
       "x^5^~1 pat~^x^x^x").

(** A stand-in for the numeric parse: the number of characters. *)
Definition parse_length (field : string) : option Z :=
  Some (Z.of_nat (String.length field)).

(** A stand-in that reads every field as a negative number. *)
Definition parse_negative (field : string) : option Z := Some (-1).

(** A record whose calories are the greatest [int]. *)
Definition huge : Food := mkFood "huge" "1 cup" 100 2147483647 1.

End Samples.

(** * Properties *)

(** ** Generic facts about the run-time model *)

Lemma at_index_lookup {A : Type} (v : list A) (i : nat) (a : A) :
  v !! i = Some a → at_index v i = Ok a.
Proof. unfold at_index. by intros ->. Qed.

Lemma at_index_lt {A : Type} (v : list A) (i : nat) :
  (i < length v)%nat → ∃ a, v !! i = Some a ∧ at_index v i = Ok a.
Proof.
  intros Hi. destruct (lookup_lt_is_Some_2 v i Hi) as [a Ha].
  exists a. split; [done | by apply at_index_lookup].
Qed.

(** ** filter_food_vector *)

Section filter.
Variables (source : FoodVector) (min_kcal max_kcal total_size : Z).

Lemma admitted_spec (r : Food) :
  admitted min_kcal max_kcal r ↔
  kcal r ≠ 0 ∧ min_kcal ≤ kcal r ≤ max_kcal.
Proof.
  unfold admitted.
  destruct (Z.eqb_spec (kcal r) 0), (Z.leb_spec min_kcal (kcal r)),
    (Z.leb_spec (kcal r) max_kcal); simpl; intuition lia.
Qed.

Lemma admitted_kept (r : Food) :
  Food_inv r → admitted min_kcal max_kcal r ↔ kept min_kcal max_kcal r.
Proof.
  intros (_ & _ & _ & Hk & _). rewrite admitted_spec. unfold kept. lia.
Qed.

(** What the loop computes from position [n] on, for any source. *)
Lemma filter_loop_eq (remaining n : nat) (counter : Z) (out : FoodVector) :
  (n + remaining)%nat = length source →
  filter_loop remaining source min_kcal max_kcal total_size n counter out
  = Ok (out ++ take (Z.to_nat (total_size - counter))
                 (filter (λ r, admitted min_kcal max_kcal r)
                         (drop n source))).
Proof.
  revert n counter out.
  induction remaining as [|remaining IH]; intros n counter out Hlen.
  - simpl. rewrite drop_ge by lia. by rewrite filter_nil, take_nil, app_nil_r.
  - simpl. destruct (Z.ltb_spec counter total_size) as [Hlt|Hge].
    + destruct (at_index_lt source n) as (f & Hf & ->); [lia|].
      simpl. rewrite (drop_S _ _ _ Hf), filter_cons.
      destruct (admitted min_kcal max_kcal f) eqn:Hadm.
      * rewrite IH by lia.
        rewrite decide_True by done.
        replace (Z.to_nat (total_size - counter))
          with (S (Z.to_nat (total_size - (counter + 1)))) by lia.
        simpl. by rewrite <- app_assoc.
      * rewrite IH by lia.
        rewrite decide_False by (by intros ?).
        done.
    + replace (Z.to_nat (total_size - counter)) with 0%nat by lia.
      by rewrite take_0, app_nil_r.
Qed.

Lemma filter_food_vector_eq :
  filter_food_vector source min_kcal max_kcal total_size
  = Ok (take (Z.to_nat total_size)
          (filter (λ r, admitted min_kcal max_kcal r) source)).
Proof.
  unfold filter_food_vector. rewrite filter_loop_eq by done.
  by rewrite Z.sub_0_r, drop_0.
Qed.

Lemma filter_kept_admitted (l : FoodVector) :
  Forall Food_inv l →
  filter (λ r, admitted min_kcal max_kcal r) l
  = filter (kept min_kcal max_kcal) l.
Proof.
  induction 1 as [|r l Hr _ IH]; [done|].
  rewrite !filter_cons, IH.
  destruct (decide (kept min_kcal max_kcal r)) as [Hk|Hk].
  - by rewrite decide_True by (by apply admitted_kept).
  - rewrite decide_False; [done|]. by rewrite admitted_kept.
Qed.

(** C5: on a vector of well-formed records the result is the vector of
    the records with [kcal > 0] and [min_kcal <= kcal <= max_kcal], in
    source order, cut after the first [total_size] of them; it holds no
    record of zero calories and at most [total_size] records. *)
Theorem filter_food_vector_spec :
  Forall Food_inv source →
  ∃ out,
    filter_food_vector source min_kcal max_kcal total_size = Ok out ∧
    out = take (Z.to_nat total_size)
            (filter (kept min_kcal max_kcal) source) ∧
    Forall (λ r, kcal r ≠ 0) out ∧
    (length out ≤ Z.to_nat total_size)%nat.
Proof.
  intros Hinv. eexists. split; [apply filter_food_vector_eq|].
  rewrite filter_kept_admitted by done.
  split; [done|]. split.
  - apply Forall_take, Forall_forall. intros r Hr.
    apply list_elem_of_filter in Hr as [[Hpos _] _]. lia.
  - rewrite length_take. lia.
Qed.

(** C10: with [total_size <= 0] the loop condition fails before the
    first record is looked at, and the result is empty. *)
Theorem filter_food_vector_nonpositive :
  total_size ≤ 0 →
  filter_food_vector source min_kcal max_kcal total_size = Ok [].
Proof.
  intros Hle. unfold filter_food_vector.
  destruct (length source) as [|k]; [done|].
  simpl. by destruct (Z.ltb_spec 0 total_size); [lia|].
Qed.

End filter.

(** The filter example of the specification: calories 0, 50, 2500, 100
    with bounds 10 and 2000 and a count of 2. *)
Lemma filter_food_vector_spec_witness :
  ∃ out,
    filter_food_vector
      [Scenario.water; Scenario.apple; Scenario.feast; Scenario.bread]
      10 2000 2 = Ok out ∧
    out = take (Z.to_nat 2)
            (filter (kept 10 2000)
               [Scenario.water; Scenario.apple; Scenario.feast;
                Scenario.bread]) ∧
    Forall (λ r, kcal r ≠ 0) out ∧
    (length out ≤ Z.to_nat 2)%nat.
Proof.
  apply (filter_food_vector_spec
           [Scenario.water; Scenario.apple; Scenario.feast; Scenario.bread]
           10 2000 2).
  by repeat constructor.
Defined.

Lemma filter_food_vector_example :
  filter_food_vector
    [Scenario.water; Scenario.apple; Scenario.feast; Scenario.bread]
    10 2000 2 = Ok [Scenario.apple; Scenario.bread].
Proof. by vm_compute. Qed.

Lemma filter_food_vector_nonpositive_witness :
  filter_food_vector [Scenario.apple; Scenario.bread] 10 2000 (-1) = Ok [].
Proof.
  apply (filter_food_vector_nonpositive [Scenario.apple; Scenario.bread]
           10 2000 (-1)).
  lia.
Defined.

(** ** greedy_max_protein *)

Module GreedyFacts.
Import Greedy.

Lemma scan_body_skip (i : nat) (st : state) (f : Food) :
  todo st !! i = Some f → protein_g f ≤ protein st →
  scan_body i st = Ok st.
Proof.
  intros Hf Hle. unfold scan_body. rewrite (at_index_lookup _ _ _ Hf).
  cbn. by destruct (Z.ltb_spec (protein st) (protein_g f)); [lia|].
Qed.

(** A scan over records that all have protein 0 assigns nothing. *)
Lemma scan_zero_protein (count i : nat) (st : state) :
  Forall (λ f, protein_g f = 0) (todo st) →
  protein st = 0 →
  (i + count ≤ length (todo st))%nat →
  for_loop count i scan_body st = Ok st.
Proof.
  intros Hzero Hp. revert i.
  induction count as [|count IH]; intros i Hi; [done|].
  destruct (lookup_lt_is_Some_2 (todo st) i) as [f Hf]; [lia|].
  assert (protein_g f = 0) as Hf0.
  { apply (Forall_lookup_1 _ _ _ _ Hzero Hf). }
  cbn [for_loop]. rewrite (scan_body_skip i st f) by (done || lia).
  cbn. apply IH. lia.
Qed.

(** C9: when every record of a non-empty vector has protein 0, the
    first scan leaves [protein_location] and [c] without a value, the
    acceptance test and the erase both read an indeterminate variable,
    and the run ends in that fault. *)
Theorem greedy_zero_protein_uninit (foods : FoodVector) (total_kcal : Z) :
  foods ≠ [] →
  Forall (λ f, protein_g f = 0) foods →
  ∃ st1,
    for_loop (length foods) 0%nat scan_body (init foods) = Ok st1 ∧
    protein_location st1 = None ∧ c st1 = None ∧
    accept total_kcal st1 = Fault UninitRead ∧
    erase_selected st1 = Fault UninitRead ∧
    greedy_max_protein foods total_kcal = Fault UninitRead.
Proof.
  intros Hne Hzero. exists (init foods).
  assert (for_loop (length foods) 0%nat scan_body (init foods)
          = Ok (init foods)) as Hscan.
  { apply scan_zero_protein; simpl; [done | done | lia]. }
  repeat split; try done.
  unfold greedy_max_protein.
  destruct foods as [|f foods]; [done|].
  change (length (f :: foods)) with (S (length foods)) in *.
  cbn [while_loop]. unfold iteration. by rewrite Hscan.
Qed.

Lemma greedy_zero_protein_uninit_witness :
  ∃ st1,
    for_loop (length [Scenario.plain; Scenario.heavy]) 0%nat scan_body
      (init [Scenario.plain; Scenario.heavy]) = Ok st1 ∧
    protein_location st1 = None ∧ c st1 = None ∧
    accept 100 st1 = Fault UninitRead ∧
    erase_selected st1 = Fault UninitRead ∧
    greedy_max_protein [Scenario.plain; Scenario.heavy] 100
    = Fault UninitRead.
Proof.
  apply (greedy_zero_protein_uninit [Scenario.plain; Scenario.heavy] 100).
  - discriminate.
  - repeat constructor.
Defined.

(** One completed iteration takes exactly one record out of [todo]. *)
Lemma erase_selected_length (st st' : state) :
  erase_selected st = Ok st' →
  length (todo st) = S (length (todo st')) ∧ result st' = result st.
Proof.
  unfold erase_selected.
  destruct (protein_location st) as [loc|]; [simpl | done].
  case_decide as Hloc; [|done].
  intros [= <-]. simpl. split; [|done].
  rewrite length_delete; [lia|]. by apply lookup_lt_is_Some_2.
Qed.

Lemma scan_body_todo (i : nat) (st st' : state) :
  scan_body i st = Ok st' → todo st' = todo st.
Proof.
  unfold scan_body. destruct (at_index (todo st) i); [simpl | done].
  case_match; by intros [= <-].
Qed.

Lemma scan_todo (count i : nat) (st st' : state) :
  for_loop count i scan_body st = Ok st' → todo st' = todo st.
Proof.
  revert i st. induction count as [|count IH]; intros i st; simpl.
  - by intros [= <-].
  - destruct (scan_body i st) as [s|] eqn:Hs; [simpl | done].
    intros H. rewrite (IH _ _ H). by eapply scan_body_todo.
Qed.

Lemma accept_todo (total_kcal : Z) (st st' : state) :
  accept total_kcal st = Ok st' → todo st' = todo st.
Proof.
  unfold accept. destruct (read (c st)); [simpl | done].
  destruct (int_add _ _); [simpl | done].
  case_match; [|by intros [= <-]].
  destruct (read (protein_location st)); [simpl | done].
  destruct (at_index _ _); [simpl | done]. by intros [= <-].
Qed.

Lemma iteration_removes_one (total_kcal : Z) (size : nat) (st st' : state) :
  iteration total_kcal size st = Ok st' →
  length (todo st) = S (length (todo st')).
Proof.
  unfold iteration.
  destruct (for_loop size 0%nat scan_body st) as [s1|] eqn:H1; [simpl|done].
  destruct (accept total_kcal s1) as [s2|] eqn:H2; [simpl|done].
  intros H3. apply erase_selected_length in H3 as [<- _].
  by rewrite (accept_todo _ _ _ H2), (scan_todo _ _ _ _ H1).
Qed.

End GreedyFacts.

Module GreedyScenarios.
Import Greedy Scenario.

(** C4: on [A; B; C] with budget 300 the first iteration accepts [B]
    (consumed 200), the second selects [C], rejects it (350 > 300) and
    still erases it, the third accepts [A] (consumed 300); the result is
    [B; A] with 300 kcal and 25 g of protein. *)
Theorem greedy_worked_example :
  ∃ st1 st2 st3,
    iteration 300 3 (init [A; B; C]) = Ok st1 ∧
    result st1 = [B] ∧ result_cal st1 = 200 ∧ todo st1 = [A; C] ∧
    iteration 300 2 st1 = Ok st2 ∧
    c st2 = Some (kcal C) ∧
    result st2 = [B] ∧ result_cal st2 = 200 ∧ todo st2 = [A] ∧
    iteration 300 1 st2 = Ok st3 ∧
    result st3 = [B; A] ∧ result_cal st3 = 300 ∧ todo st3 = [] ∧
    greedy_max_protein [A; B; C] 300 = Ok [B; A] ∧
    total_kcal_of [B; A] = 300 ∧ total_protein_of [B; A] = 25.
Proof.
  do 3 eexists.
  split; [vm_compute; reflexivity|]. do 3 (split; [reflexivity|]).
  split; [vm_compute; reflexivity|]. do 4 (split; [reflexivity|]).
  split; [vm_compute; reflexivity|]. do 3 (split; [reflexivity|]).
  by vm_compute.
Qed.

(** C2, at [lean; heavy] with budget 100: once [lean] is erased the
    second scan sees only a record of protein 0 and assigns nothing, so
    the acceptance test adds the 10 kcal still held in [c] while
    [todo[protein_location]] is [heavy]; the result weighs 1010 kcal. *)
Theorem greedy_exceeds_budget :
  Forall Food_inv [lean; heavy] ∧
  greedy_max_protein [lean; heavy] 100 = Ok [lean; heavy] ∧
  total_kcal_of [lean; heavy] = 1010 ∧
  ¬ (total_kcal_of [lean; heavy] ≤ 100).
Proof.
  split; [by repeat constructor|].
  split; [by vm_compute|]. split; [done|]. by vm_compute.
Qed.

(** C7, at [plain] with budget 100: the only record has protein 0, the
    first iteration reads [c] before any assignment and no record is
    erased; the loop does not complete its one iteration. *)
Theorem greedy_iteration_faults :
  Food_inv plain ∧
  iteration 100 1 (init [plain]) = Fault UninitRead ∧
  greedy_max_protein [plain] 100 = Fault UninitRead.
Proof. split; [by repeat constructor|]. by vm_compute. Qed.

(** The same with a position kept from an earlier iteration: after
    [lean] at index 1 is erased, the second iteration uses index 1 on a
    vector of one record. *)
Lemma greedy_stale_index_faults :
  greedy_max_protein [plain; lean] 100 = Fault OutOfRange.
Proof. by vm_compute. Qed.

End GreedyScenarios.

(** ** greedy_max_protein on records of positive protein *)

Module GreedyPositive.
Import Greedy.

Lemma total_kcal_of_snoc (l : FoodVector) (f : Food) :
  total_kcal_of (l ++ [f]) = total_kcal_of l + kcal f.
Proof.
  unfold total_kcal_of. induction l as [|g l IH]; simpl; [lia|].
  rewrite IH. lia.
Qed.

Lemma total_kcal_of_delete (l : FoodVector) (loc : nat) (f : Food) :
  l !! loc = Some f →
  total_kcal_of (delete loc l) + kcal f = total_kcal_of l.
Proof.
  unfold total_kcal_of. revert loc.
  induction l as [|g l IH]; intros [|loc] Hf; simplify_eq/=; [lia|].
  specialize (IH _ Hf). lia.
Qed.

Lemma scan_body_eq (i : nat) (st : state) (f : Food) :
  todo st !! i = Some f →
  scan_body i st =
  Ok (if protein st <? protein_g f then
        {| todo := todo st; result := result st;
           protein := protein_g f; result_cal := result_cal st;
           protein_location := Some i; c := Some (kcal f) |}
      else st).
Proof.
  intros Hf. unfold scan_body. rewrite (at_index_lookup _ _ _ Hf).
  cbn. by case_match.
Qed.

(** The part of the state the scan leaves alone. *)
Lemma scan_body_frame (i : nat) (st st' : state) :
  scan_body i st = Ok st' →
  todo st' = todo st ∧ result st' = result st ∧
  result_cal st' = result_cal st.
Proof.
  unfold scan_body. destruct (at_index (todo st) i); [cbn | done].
  case_match; by intros [= <-].
Qed.

(** Once a record is selected, the rest of the scan ends with a record
    selected. *)
Lemma scan_keeps_selection (count i : nat) (st : state) (loc : nat)
    (f : Food) :
  (i + count ≤ length (todo st))%nat →
  selected st loc f →
  ∃ st' loc' f',
    for_loop count i scan_body st = Ok st' ∧ selected st' loc' f' ∧
    todo st' = todo st ∧ result st' = result st ∧
    result_cal st' = result_cal st.
Proof.
  revert i st loc f.
  induction count as [|count IH]; intros i st loc f Hi Hsel.
  - by exists st, loc, f.
  - destruct (lookup_lt_is_Some_2 (todo st) i) as [g Hg]; [lia|].
    cbn [for_loop]. rewrite (scan_body_eq _ _ _ Hg). cbn.
    destruct (protein st <? protein_g g).
    + edestruct (IH (S i)) as (st' & loc' & f' & -> & ? & ? & ? & ?);
        [| split_and!; [reflexivity | reflexivity | exact Hg] |].
      { simpl. lia. }
      by exists st', loc', f'.
    + destruct (IH (S i) st loc f) as (st' & loc' & f' & -> & ?);
        [lia | done |].
      by exists st', loc', f'.
Qed.

(** On a non-empty vector of records of positive protein, scanned from
    [protein = 0], the first record is taken at once. *)
Lemma scan_selects (st : state) :
  todo st ≠ [] →
  Forall (λ f, 0 ≤ kcal f ∧ 0 < protein_g f) (todo st) →
  protein st = 0 →
  ∃ st' loc f,
    for_loop (length (todo st)) 0%nat scan_body st = Ok st' ∧
    selected st' loc f ∧
    todo st' = todo st ∧ result st' = result st ∧
    result_cal st' = result_cal st.
Proof.
  intros Hne Hpos Hp.
  destruct (todo st) as [|g rest] eqn:Htodo; [done|].
  assert (todo st !! 0%nat = Some g) as Hg by by rewrite Htodo.
  apply Forall_cons in Hpos as [[_ Hgpos] _].
  cbn [length for_loop]. rewrite (scan_body_eq _ _ _ Hg). cbn.
  rewrite Hp. destruct (Z.ltb_spec 0 (protein_g g)) as [_|?]; [|lia].
  edestruct (scan_keeps_selection (length rest) 1) as
    (st' & loc' & f' & -> & ? & Ht & ? & ?);
    [| split_and!; [reflexivity | reflexivity | exact Hg] |].
  { simpl. rewrite Htodo. simpl. lia. }
  exists st', loc', f'. split_and!; try done. by rewrite Ht.
Qed.

Lemma accept_eq (total_kcal : Z) (st : state) (loc : nat) (f : Food) :
  selected st loc f →
  INT_MIN ≤ result_cal st + kcal f ≤ INT_MAX →
  accept total_kcal st =
  Ok (if result_cal st + kcal f <=? total_kcal then
        {| todo := todo st; result := result st ++ [f];
           protein := protein st; result_cal := result_cal st + kcal f;
           protein_location := protein_location st; c := c st |}
      else st).
Proof.
  intros (Hloc & Hc & Hf) Hrange. unfold accept, int_add.
  rewrite Hc. cbn. rewrite bool_decide_eq_true_2 by done. cbn.
  case_match; [|done].
  rewrite Hloc. cbn. by rewrite (at_index_lookup _ _ _ Hf).
Qed.

Lemma erase_selected_eq (st : state) (loc : nat) (f : Food) :
  selected st loc f →
  erase_selected st =
  Ok {| todo := delete loc (todo st); result := result st;
        protein := 0; result_cal := result_cal st;
        protein_location := protein_location st; c := c st |}.
Proof.
  intros (Hloc & _ & Hf). unfold erase_selected. rewrite Hloc. cbn.
  rewrite decide_True; [done|]. by eapply lookup_lt_Some.
Qed.

Lemma total_kcal_of_nonneg (l : FoodVector) :
  Forall (λ f, 0 ≤ kcal f ∧ 0 < protein_g f) l → 0 ≤ total_kcal_of l.
Proof.
  unfold total_kcal_of. induction 1 as [|f l [Hf _] _ IH]; simpl; lia.
Qed.

(** One iteration from the loop invariant: it completes, erases one
    record and re-establishes the invariant. *)
Lemma iteration_inv (total_kcal : Z) (st : state) :
  loop_inv total_kcal st → todo st ≠ [] →
  ∃ st', iteration total_kcal (length (todo st)) st = Ok st' ∧
         loop_inv total_kcal st' ∧
         length (todo st) = S (length (todo st')).
Proof.
  intros [Htodo Hp Hcal Hnn Hbud Hrange] Hne.
  destruct (scan_selects st Hne Htodo Hp)
    as (st1 & loc & f & Hscan & Hsel & Ht1 & Hr1 & Hc1).
  pose proof Hsel as (Hloc & Hc & Hf).
  rewrite <- Ht1 in Htodo, Hrange. rewrite <- Hr1, <- Hc1 in Hcal.
  rewrite <- Hc1 in Hnn, Hbud, Hrange.
  assert (0 ≤ kcal f) as Hkf.
  { by apply (Forall_lookup_1 _ _ _ _ Htodo Hf). }
  pose proof (total_kcal_of_delete _ _ _ Hf) as Hdel.
  pose proof (Forall_delete _ _ loc Htodo) as Htodo'.
  pose proof (total_kcal_of_nonneg _ Htodo') as Hrest.
  assert (length (todo st1) = S (length (delete loc (todo st1)))) as Hlen.
  { rewrite length_delete by (by eexists).
    apply lookup_lt_Some in Hf. lia. }
  assert (INT_MIN ≤ result_cal st1 + kcal f ≤ INT_MAX) as Hfit.
  { unfold INT_MIN. lia. }
  unfold iteration. rewrite Hscan. cbn [mbind outcome_bind].
  rewrite (accept_eq total_kcal st1 loc f Hsel Hfit).
  destruct (Z.leb_spec (result_cal st1 + kcal f) total_kcal) as [Hle|Hgt];
    cbn [mbind outcome_bind];
    rewrite (erase_selected_eq _ loc f) by done;
    cbn [todo result protein result_cal protein_location c];
    (eexists; split; [reflexivity|]);
    cbn [todo result protein result_cal protein_location c];
    (split; [|by rewrite <- Ht1]).
  - constructor; cbn [todo result protein result_cal protein_location c];
      [done | done | | lia..].
    rewrite total_kcal_of_snoc. lia.
  - constructor; cbn [todo result protein result_cal protein_location c];
      [done | done | done | lia..].
Qed.

(** The [while] from the invariant: [size] iterations, all completing,
    leave [todo] empty. *)
Lemma while_loop_inv (total_kcal : Z) (size : nat) (st : state) :
  loop_inv total_kcal st → size = length (todo st) →
  ∃ st', while_loop total_kcal size st = Ok st' ∧
         loop_inv total_kcal st' ∧ todo st' = [].
Proof.
  revert st. induction size as [|size IH]; intros st Hinv Hsize.
  - exists st. split_and!; [done | done |]. by apply nil_length_inv.
  - destruct (iteration_inv total_kcal st Hinv) as (st1 & Hit & Hinv1 & Hlen).
    { intros Hnil. by rewrite Hnil in Hsize. }
    cbn [while_loop]. rewrite Hsize, Hit. cbn.
    replace (Init.Nat.pred (length (todo st))) with (length (todo st1)) by lia.
    apply IH; [done | lia].
Qed.

(** Away from records of protein 0 the greedy selection behaves as
    described: on records of positive protein whose calories together fit
    an [int], the run completes and the calories of the result are within
    a non-negative budget. *)
Theorem greedy_positive_within_budget (foods : FoodVector) (total_kcal : Z) :
  Forall (λ f, 0 ≤ kcal f ∧ 0 < protein_g f) foods →
  total_kcal_of foods ≤ INT_MAX →
  0 ≤ total_kcal →
  ∃ res, greedy_max_protein foods total_kcal = Ok res ∧
         total_kcal_of res ≤ total_kcal.
Proof.
  intros Hpos Hfit Hbud.
  destruct (while_loop_inv total_kcal (length foods) (init foods))
    as (st' & Hrun & Hinv & _); [|done|].
  { constructor; cbn; try done; lia. }
  exists (result st'). unfold greedy_max_protein. rewrite Hrun. cbn.
  split; [done|]. destruct Hinv as [_ _ <- _ Hb _]. lia.
Qed.

Lemma greedy_positive_within_budget_witness :
  ∃ res,
    greedy_max_protein [Scenario.A; Scenario.B; Scenario.C] 300 = Ok res ∧
    total_kcal_of res ≤ 300.
Proof.
  apply (greedy_positive_within_budget
           [Scenario.A; Scenario.B; Scenario.C] 300).
  - repeat constructor; done.
  - by vm_compute.
  - lia.
Defined.

End GreedyPositive.

(** ** exhaustive_max_protein *)

Module ExhaustiveFacts.
Import Exhaustive.

(** Only the [assert] raises [AssertionFailed]. *)
Lemma bind_no_assert {A B : Type} (m : outcome A) (k : A → outcome B) :
  m ≠ Fault AssertionFailed →
  (∀ a, k a ≠ Fault AssertionFailed) →
  m ≫= k ≠ Fault AssertionFailed.
Proof.
  intros Hm Hk. destruct m as [a|e]; cbn; [apply Hk|].
  intros [= ->]. by apply Hm.
Qed.

Lemma at_index_no_assert {A : Type} (v : list A) (i : nat) :
  at_index v i ≠ Fault AssertionFailed.
Proof. unfold at_index. by destruct (v !! i). Qed.

Lemma int_add_no_assert (a b : Z) : int_add a b ≠ Fault AssertionFailed.
Proof. unfold int_add. by case_bool_decide. Qed.

Lemma for_loop_no_assert {St : Type} (body : nat → St → outcome St)
    (count i : nat) (s : St) :
  (∀ j t, body j t ≠ Fault AssertionFailed) →
  for_loop count i body s ≠ Fault AssertionFailed.
Proof.
  intros Hbody. revert i s.
  induction count as [|count IH]; intros i s; [done|].
  cbn [for_loop]. apply bind_no_assert; [apply Hbody | intros; apply IH].
Qed.

Create HintDb no_assert.

#[local] Hint Resolve at_index_no_assert int_add_no_assert : no_assert.

Ltac no_assert :=
  repeat first
    [ apply bind_no_assert; [|intros ?]
    | apply for_loop_no_assert; intros ? ?
    | solve [auto with no_assert]
    | case_match
    | discriminate ].

Lemma pick_body_no_assert foods bits j cand :
  pick_body foods bits j cand ≠ Fault AssertionFailed.
Proof. unfold pick_body. no_assert. Qed.

Lemma sum_body_no_assert cand i st :
  sum_body cand i st ≠ Fault AssertionFailed.
Proof. unfold sum_body. no_assert. Qed.

Lemma copy_body_no_assert cand i res :
  copy_body cand i res ≠ Fault AssertionFailed.
Proof. unfold copy_body. no_assert. Qed.

#[local] Hint Resolve pick_body_no_assert sum_body_no_assert
  copy_body_no_assert : no_assert.

Lemma iteration_no_assert foods total_kcal n bits st :
  iteration foods total_kcal n bits st ≠ Fault AssertionFailed.
Proof. unfold iteration, update. no_assert. Qed.

Lemma bits_loop_no_assert foods total_kcal n remaining bits st :
  bits_loop foods total_kcal n remaining bits st ≠ Fault AssertionFailed.
Proof.
  revert bits st. induction remaining as [|remaining IH]; intros bits st.
  - done.
  - cbn [bits_loop]. apply bind_no_assert; [|intros; apply IH].
    apply iteration_no_assert.
Qed.

(** C6: the run stops at the failed assertion exactly when the vector
    holds 64 records or more. *)
Theorem exhaustive_assertion (foods : FoodVector) (total_kcal : Z) :
  exhaustive_max_protein foods total_kcal = Fault AssertionFailed
  ↔ (64 ≤ length foods)%nat.
Proof.
  unfold exhaustive_max_protein. case_decide as Hn.
  - split; [|lia]. intros H. exfalso. revert H.
    apply bind_no_assert; [apply bits_loop_no_assert | done].
  - split; [lia | done].
Qed.

(** The three algorithms on the empty vector. *)
Lemma exhaustive_empty (total_kcal : Z) :
  exhaustive_max_protein [] total_kcal = Ok [].
Proof.
  unfold exhaustive_max_protein. cbn.
  unfold update. cbn. by destruct (0 <=? total_kcal).
Qed.

End ExhaustiveFacts.

Module ExhaustiveScenarios.
Import Exhaustive Scenario.

(** C1, at [A; B; C] with budget 300: the totals are carried over from
    mask to mask, so mask 2 (the subset [B]) is tested with the 300 kcal
    and 25 g of masks 1 and 2 together and becomes the best; every later
    mask is over budget. The result [B] has 20 g of protein while the
    subset [A; B] has 300 kcal and 25 g. *)
Theorem exhaustive_not_optimal :
  Forall Food_inv [A; B; C] ∧
  exhaustive_max_protein [A; B; C] 300 = Ok [B] ∧
  total_protein_of [B] = 20 ∧
  [A; B] `sublist_of` [A; B; C] ∧
  total_kcal_of [A; B] ≤ 300 ∧
  total_protein_of [B] < total_protein_of [A; B].
Proof.
  split; [by repeat constructor|].
  split; [by vm_compute|]. split; [done|].
  split; [by repeat constructor|]. by vm_compute.
Qed.

(** C3, at [P; Q] with budget 150: after masks 0 and 1 the best subset
    is [P] and the best protein is 0. Mask 2 selects [Q], of 100 kcal
    and no protein, but the running total is 200 kcal, the test against
    the budget fails and [P] stays. *)
Theorem exhaustive_zero_best_kept :
  Forall Food_inv [P; Q] ∧
  ∃ st2 st3,
    bits_loop [P; Q] 150 2 2 0 init = Ok st2 ∧
    total_protein_best st2 = 0 ∧ result st2 = [P] ∧
    for_loop 2 0%nat (pick_body [P; Q] 2) [] = Ok [Q] ∧
    total_kcal_of [Q] ≤ 150 ∧ total_protein_of [Q] = 0 ∧
    iteration [P; Q] 150 2 2 st2 = Ok st3 ∧
    total_calories st3 = 200 ∧ result st3 = [P] ∧
    exhaustive_max_protein [P; Q] 150 = Ok [P].
Proof.
  split; [by repeat constructor|]. do 2 eexists.
  split; [vm_compute; reflexivity|]. do 2 (split; [reflexivity|]).
  split; [by vm_compute|]. split; [by vm_compute|]. split; [done|].
  split; [vm_compute; reflexivity|]. do 2 (split; [reflexivity|]).
  by vm_compute.
Qed.

End ExhaustiveScenarios.

(** ** exhaustive_max_protein: what the running totals still guarantee *)

Module ExhaustiveBudget.
Import Exhaustive.

(** Invariant rule for a counted loop that completes. *)
Lemma for_loop_invariant {St : Type} (Inv : nat → St → Prop)
    (body : nat → St → outcome St) (count i : nat) (s s' : St) :
  (∀ j t t', (i ≤ j < i + count)%nat → Inv j t → body j t = Ok t' →
             Inv (S j) t') →
  Inv i s →
  for_loop count i body s = Ok s' →
  Inv (i + count)%nat s'.
Proof.
  revert i s. induction count as [|count IH]; intros i s Hstep Hi Hrun.
  - cbn in Hrun. injection Hrun as <-. by rewrite Nat.add_0_r.
  - cbn [for_loop] in Hrun.
    destruct (body i s) as [t|] eqn:Hb; [cbn in Hrun | done].
    replace (i + S count)%nat with (S i + count)%nat by lia.
    apply (IH (S i) t); [|by apply (Hstep i s); [lia|..] | done].
    intros j u u' Hj. apply Hstep. lia.
Qed.

Section budget.
Variables (foods : FoodVector) (total_kcal : Z).
Hypothesis foods_inv : Forall Food_inv foods.
Hypothesis budget_nonneg : 0 ≤ total_kcal.

(** The trial subset is made of records of [foods]. *)
Lemma pick_loop_inv (bits : Z) (n : nat) (candidate : FoodVector) :
  for_loop n 0%nat (pick_body foods bits) [] = Ok candidate →
  Forall Food_inv candidate.
Proof.
  intros Hrun.
  apply (for_loop_invariant (λ _ cand, Forall Food_inv cand)) in Hrun;
    [done | | done].
  intros j cand cand' _ Hcand. unfold pick_body.
  destruct (bit_set bits j); [|by intros [= <-]].
  unfold at_index. destruct (foods !! j) as [f|] eqn:Hf; [cbn | done].
  intros [= <-]. apply Forall_app. split; [done|].
  apply Forall_singleton. by apply (Forall_lookup_1 _ _ _ _ foods_inv Hf).
Qed.


(** The copy loop rebuilds the candidate, and cannot fault. *)
Lemma copy_body_eq (candidate res : FoodVector) (i : nat) (f : Food) :
  candidate !! i = Some f → copy_body candidate i res = Ok (res ++ [f]).
Proof.
  intros Hf. unfold copy_body. by rewrite (at_index_lookup _ _ _ Hf).
Qed.

Lemma copy_loop_eq (candidate : FoodVector) (count i : nat)
    (res : FoodVector) :
  (i + count = length candidate)%nat →
  for_loop count i (copy_body candidate) res = Ok (res ++ drop i candidate).
Proof.
  revert i res. induction count as [|count IH]; intros i res Hi.
  - rewrite drop_ge by lia. by rewrite app_nil_r.
  - destruct (lookup_lt_is_Some_2 candidate i) as [f Hf]; [lia|].
    cbn [for_loop]. rewrite (copy_body_eq _ _ _ _ Hf).
    cbn [mbind outcome_bind]. rewrite IH by lia.
    by rewrite (drop_S _ _ _ Hf), <- app_assoc.
Qed.

(** The test of the update alone: when the running calories are within
    the budget and the best protein is 0, the candidate becomes the best
    subset, whatever the running protein is. *)
Lemma update_zero_best (candidate : FoodVector) (st : state) :
  total_calories st ≤ total_kcal →
  total_protein_best st = 0 →
  update total_kcal candidate st =
  Ok {| total_calories := total_calories st;
        total_protein := total_protein st;
        total_protein_best := total_protein st;
        result := candidate |}.
Proof.
  intros Hle Hbest. unfold update.
  destruct (Z.leb_spec (total_calories st) total_kcal); [|lia].
  rewrite Hbest. cbn [Z.eqb orb].
  rewrite copy_loop_eq by done. by rewrite drop_0, app_nil_l.
Qed.





End budget.


End ExhaustiveBudget.

(** ** The empty vector *)

(** C8: each of the three functions returns an empty vector, without a
    fault, on an empty vector. *)
Theorem empty_input_empty_result (min_kcal max_kcal total_size total_kcal : Z) :
  filter_food_vector [] min_kcal max_kcal total_size = Ok [] ∧
  Greedy.greedy_max_protein [] total_kcal = Ok [] ∧
  Exhaustive.exhaustive_max_protein [] total_kcal = Ok [].
Proof.
  split; [done|]. split; [done|]. apply ExhaustiveFacts.exhaustive_empty.
Qed.

(** * Further properties *)

(** ** filter_food_vector on arbitrary vectors *)

Module FilterMore.

(** Every element of a filtered list satisfies the predicate. *)
Lemma Forall_filter_admitted (min_kcal max_kcal : Z) (l : FoodVector) :
  Forall (λ r, admitted min_kcal max_kcal r)
    (filter (λ r, admitted min_kcal max_kcal r) l).
Proof.
  apply Forall_forall. intros r Hr. by apply list_elem_of_filter in Hr as [? _].
Qed.

Lemma filter_all {A : Type} (P : A → Prop) `{!∀ x, Decision (P x)}
    (l : list A) :
  Forall P l → filter P l = l.
Proof.
  induction 1 as [|x l Hx _ IH]; [done|].
  by rewrite filter_cons, decide_True, IH.
Qed.

Lemma filter_none {A : Type} (P : A → Prop) `{!∀ x, Decision (P x)}
    (l : list A) :
  Forall (λ x, ¬ P x) l → filter P l = [].
Proof.
  induction 1 as [|x l Hx _ IH]; [done|].
  by rewrite filter_cons, decide_False, IH.
Qed.

(** On any vector, also one whose records break the constructor's
    assertions, the filter completes; its result is a subsequence of the
    source in source order, and each record in it has calories different
    from 0 and between the two bounds. *)
Theorem filter_sublist_admitted (source : FoodVector)
    (min_kcal max_kcal total_size : Z) :
  ∃ out,
    filter_food_vector source min_kcal max_kcal total_size = Ok out ∧
    out `sublist_of` source ∧
    Forall (λ r, kcal r ≠ 0 ∧ min_kcal ≤ kcal r ≤ max_kcal) out.
Proof.
  eexists. split; [apply filter_food_vector_eq|]. split.
  - etrans; [apply sublist_take | apply sublist_filter].
  - apply Forall_take.
    eapply Forall_impl; [apply Forall_filter_admitted|].
    intros r Hr. by apply admitted_spec.
Qed.

(** Filtering the result again with the same bounds and count changes
    nothing. *)
Theorem filter_idempotent (source : FoodVector)
    (min_kcal max_kcal total_size : Z) :
  (out ← filter_food_vector source min_kcal max_kcal total_size;
   filter_food_vector out min_kcal max_kcal total_size)
  = filter_food_vector source min_kcal max_kcal total_size.
Proof.
  rewrite (filter_food_vector_eq source). cbn [mbind outcome_bind].
  rewrite filter_food_vector_eq. f_equal.
  set (P := λ r : Food, Is_true (admitted min_kcal max_kcal r)).
  assert (filter P (take (Z.to_nat total_size) (filter P source))
          = take (Z.to_nat total_size) (filter P source)) as ->.
  { apply filter_all. apply Forall_take, Forall_filter_admitted. }
  apply take_idemp.
Qed.

(** A smaller count gives a prefix of what a larger count gives. *)
Theorem filter_count_prefix (source : FoodVector)
    (min_kcal max_kcal total_size total_size' : Z) :
  total_size ≤ total_size' →
  ∃ out out',
    filter_food_vector source min_kcal max_kcal total_size = Ok out ∧
    filter_food_vector source min_kcal max_kcal total_size' = Ok out' ∧
    out `prefix_of` out'.
Proof.
  intros Hle. do 2 eexists.
  split; [apply filter_food_vector_eq|].
  split; [apply filter_food_vector_eq|].
  replace (Z.to_nat total_size)
    with (Z.to_nat total_size `min` Z.to_nat total_size')%nat by lia.
  rewrite <- take_take. apply prefix_take.
Qed.

Lemma filter_count_prefix_witness :
  ∃ out out',
    filter_food_vector
      [Scenario.water; Scenario.apple; Scenario.feast; Scenario.bread]
      10 2000 1 = Ok out ∧
    filter_food_vector
      [Scenario.water; Scenario.apple; Scenario.feast; Scenario.bread]
      10 2000 2 = Ok out' ∧
    out `prefix_of` out'.
Proof.
  apply (filter_count_prefix
           [Scenario.water; Scenario.apple; Scenario.feast; Scenario.bread]
           10 2000 1 2).
  lia.
Defined.

(** With the bounds crossed no record can pass. *)
Theorem filter_crossed_bounds (source : FoodVector)
    (min_kcal max_kcal total_size : Z) :
  max_kcal < min_kcal →
  filter_food_vector source min_kcal max_kcal total_size = Ok [].
Proof.
  intros Hlt. rewrite filter_food_vector_eq. f_equal.
  rewrite filter_none; [apply take_nil|].
  apply Forall_forall. intros r _ Hr. apply admitted_spec in Hr. lia.
Qed.

Lemma filter_crossed_bounds_witness :
  filter_food_vector [Scenario.apple; Scenario.bread] 2000 10 5 = Ok [].
Proof.
  apply (filter_crossed_bounds [Scenario.apple; Scenario.bread] 2000 10 5).
  lia.
Defined.

(** The filter bounds the input of the exhaustive search: with a count
    below 64 the filtered vector passes the assertion [n < 64]. *)
Theorem filter_then_exhaustive (source : FoodVector)
    (min_kcal max_kcal total_size total_kcal : Z) :
  total_size < 64 →
  ∃ foods,
    filter_food_vector source min_kcal max_kcal total_size = Ok foods ∧
    (length foods < 64)%nat ∧
    Exhaustive.exhaustive_max_protein foods total_kcal
    ≠ Fault AssertionFailed.
Proof.
  intros Hlt. eexists. split; [apply filter_food_vector_eq|].
  assert (length (take (Z.to_nat total_size)
            (filter (λ r, admitted min_kcal max_kcal r) source)) < 64)%nat
    as Hlen.
  { rewrite length_take. lia. }
  split; [done|].
  unfold Exhaustive.exhaustive_max_protein. rewrite decide_True by done.
  apply ExhaustiveFacts.bind_no_assert; [|done].
  apply ExhaustiveFacts.bits_loop_no_assert.
Qed.

Lemma filter_then_exhaustive_witness :
  ∃ foods,
    filter_food_vector [Scenario.A; Scenario.B; Scenario.C] 0 2000 2
    = Ok foods ∧
    (length foods < 64)%nat ∧
    Exhaustive.exhaustive_max_protein foods 300 ≠ Fault AssertionFailed.
Proof.
  apply (filter_then_exhaustive [Scenario.A; Scenario.B; Scenario.C]
           0 2000 2 300).
  lia.
Defined.

End FilterMore.

(** ** greedy_max_protein: what every completed run keeps *)

Module GreedyMore.
Import Greedy GreedyStep.

Lemma scan_frame (count i : nat) (st st' : state) :
  for_loop count i scan_body st = Ok st' →
  todo st' = todo st ∧ result st' = result st ∧
  result_cal st' = result_cal st.
Proof.
  intros Hrun.
  apply (ExhaustiveBudget.for_loop_invariant
           (λ _ s, todo s = todo st ∧ result s = result st ∧
                   result_cal s = result_cal st)) in Hrun; [done| |done].
  intros j t t' _ (Ht & Hr & Hc) Hbody.
  apply GreedyPositive.scan_body_frame in Hbody as (-> & -> & ->). done.
Qed.

(** What [accept] may change: it appends [todo[protein_location]] or
    nothing. *)
Lemma accept_result (total_kcal : Z) (st st' : state) :
  accept total_kcal st = Ok st' →
  todo st' = todo st ∧ protein_location st' = protein_location st ∧
  (result st' = result st ∨
   ∃ loc f, protein_location st = Some loc ∧ todo st !! loc = Some f ∧
            result st' = result st ++ [f]).
Proof.
  unfold accept. destruct (c st) as [cv|]; [cbn | done].
  destruct (int_add (result_cal st) cv) as [sum|]; [cbn | done].
  destruct (sum <=? total_kcal); [|intros [= <-]; by auto].
  destruct (protein_location st) as [loc|] eqn:Hloc; [cbn | done].
  unfold at_index. destruct (todo st !! loc) as [f|] eqn:Hf; [cbn | done].
  intros [= <-]. cbn. split_and!; [done..|]. right. by exists loc, f.
Qed.

Lemma erase_selected_result (st st' : state) :
  erase_selected st = Ok st' →
  ∃ loc, protein_location st = Some loc ∧
         todo st' = delete loc (todo st) ∧ result st' = result st.
Proof.
  unfold erase_selected.
  destruct (protein_location st) as [loc|]; [cbn | done].
  case_decide; [|done]. intros [= <-]. by exists loc.
Qed.

Lemma iteration_submseteq (total_kcal : Z) (size : nat) (st st' : state) :
  iteration total_kcal size st = Ok st' →
  result st' ++ todo st' ⊆+ result st ++ todo st.
Proof.
  unfold iteration.
  destruct (for_loop size 0%nat scan_body st) as [s1|] eqn:H1; [cbn|done].
  destruct (accept total_kcal s1) as [s2|] eqn:H2; [cbn|done].
  intros H3.
  apply scan_frame in H1 as (Ht1 & Hr1 & _).
  apply accept_result in H2 as (Ht2 & Hl2 & Hres).
  apply erase_selected_result in H3 as (loc & Hloc & -> & ->).
  rewrite Ht2, Ht1. rewrite Hl2 in Hloc.
  destruct Hres as [->|(loc' & f & Hloc' & Hf & ->)].
  - rewrite Hr1. apply submseteq_skips_l, submseteq_delete.
  - rewrite Hloc' in Hloc. injection Hloc as ->.
    rewrite Hr1, Ht1 in *. rewrite <- app_assoc. cbn [app].
    apply submseteq_skips_l. by rewrite <- delete_Permutation.
Qed.

Lemma while_loop_submseteq (total_kcal : Z) (size : nat) (st st' : state) :
  while_loop total_kcal size st = Ok st' →
  result st' ++ todo st' ⊆+ result st ++ todo st.
Proof.
  revert st. induction size as [|size IH]; intros st; cbn [while_loop].
  - by intros [= <-].
  - destruct (iteration total_kcal (S size) st) as [s1|] eqn:Hit; [cbn|done].
    intros Hrun. etrans; [by apply IH|]. by eapply iteration_submseteq.
Qed.


Lemma iteration_removes_one_witness :
  length (todo (init [Scenario.A; Scenario.B; Scenario.C]))
  = S (length [Scenario.A; Scenario.C]).
Proof.
  apply (GreedyFacts.iteration_removes_one 300 3
           (init [Scenario.A; Scenario.B; Scenario.C])
           {| todo := [Scenario.A; Scenario.C]; result := [Scenario.B];
              protein := 0; result_cal := 200;
              protein_location := Some 1%nat; c := Some 200 |}).
  by vm_compute.
Defined.


End GreedyMore.

(** ** greedy_max_protein on records of positive protein: the choices *)

Module GreedyOrder.
Import Greedy GreedyStep.

(** During the scan [protein] is the greatest protein seen so far, and
    as soon as it is not 0 the selection variables name the first record
    that has it. *)
Lemma scan_maximum (st st1 : state) :
  protein st = 0 →
  for_loop (length (todo st)) 0%nat scan_body st = Ok st1 →
  (∀ j g, todo st !! j = Some g → protein_g g ≤ protein st1) ∧
  (protein st1 = 0 ∨
   ∃ loc f, selected st1 loc f ∧ protein st1 = protein_g f ∧
            ∀ j g, (j < loc)%nat → todo st !! j = Some g →
                   protein_g g < protein_g f).
Proof.
  intros Hp Hrun.
  apply (ExhaustiveBudget.for_loop_invariant
           (λ i s, todo s = todo st ∧
                   (∀ j g, (j < i)%nat → todo st !! j = Some g →
                           protein_g g ≤ protein s) ∧
                   (protein s = 0 ∨
                    ∃ loc f, selected s loc f ∧ protein s = protein_g f ∧
                             ∀ j g, (j < loc)%nat → todo st !! j = Some g →
                                    protein_g g < protein_g f)))
    in Hrun.
  - destruct Hrun as (_ & Hmax & Hsel). split; [|done].
    intros j g Hg. apply (Hmax j); [|done].
    apply lookup_lt_Some in Hg. lia.
  - intros j t t' _ (Ht & Hmax & Hsel). unfold scan_body, at_index.
    destruct (todo t !! j) as [g|] eqn:Hg; [cbn | done].
    destruct (Z.ltb_spec (protein t) (protein_g g)) as [Hlt|Hge];
      intros [= <-]; cbn.
    + split_and!; [done | |].
      * intros i h Hi Hh. destruct (decide (i = j)) as [->|Hne].
        { rewrite <- Ht, Hg in Hh. injection Hh as ->. lia. }
        specialize (Hmax i h ltac:(lia) Hh). lia.
      * right. exists j, g. split_and!; try done.
        intros i h Hi Hh. specialize (Hmax i h Hi Hh). lia.
    + split_and!; [done | | done].
      intros i h Hi Hh. destruct (decide (i = j)) as [->|Hne].
      { rewrite <- Ht, Hg in Hh. injection Hh as ->. lia. }
      specialize (Hmax i h ltac:(lia) Hh). lia.
  - split_and!; [done | intros; lia | by left].
Qed.

(** From the loop invariant, an iteration chooses the first record of
    greatest protein and ends in [step_with] of it. *)
Lemma iteration_chooses (total_kcal : Z) (st : state) :
  loop_inv total_kcal st → todo st ≠ [] →
  ∃ loc f,
    todo st !! loc = Some f ∧
    Forall (λ g, protein_g g ≤ protein_g f) (todo st) ∧
    (∀ j g, (j < loc)%nat → todo st !! j = Some g →
            protein_g g < protein_g f) ∧
    iteration total_kcal (length (todo st)) st
    = Ok (step_with total_kcal st loc f).
Proof.
  intros Hinv Hne. pose proof Hinv as [Htodo Hp Hcal Hnn Hbud Hrange].
  destruct (GreedyPositive.scan_selects st Hne Htodo Hp)
    as (st1 & loc & f & Hscan & Hsel & Ht1 & Hr1 & Hc1).
  destruct (scan_maximum st st1 Hp Hscan) as [Hmax Hprot].
  pose proof Hsel as (Hloc & Hc & Hf).
  exists loc, f. rewrite Ht1 in Hf. split; [done|].
  assert (protein st1 = protein_g f ∧
          ∀ j g, (j < loc)%nat → todo st !! j = Some g →
                 protein_g g < protein_g f) as [Hpf Hfirst].
  { destruct Hprot as [H0|(loc' & f' & (Hloc' & _ & Hf') & -> & Hfirst)].
    - destruct (todo st) as [|g rest] eqn:Htd; [done|].
      apply Forall_cons in Htodo as [[_ Hg] _].
      specialize (Hmax 0%nat g eq_refl). lia.
    - rewrite Hloc in Hloc'. injection Hloc' as <-.
      rewrite Ht1, Hf in Hf'. by injection Hf' as <-. }
  split.
  { apply Forall_forall. intros g Hg.
    apply list_elem_of_lookup in Hg as [j Hj].
    rewrite <- Hpf. by apply (Hmax j). }
  split; [done|].
  assert (0 ≤ kcal f) as Hkf.
  { by apply (Forall_lookup_1 _ _ _ _ Htodo Hf). }
  pose proof (GreedyPositive.total_kcal_of_delete _ _ _ Hf) as Hdel.
  pose proof (GreedyPositive.total_kcal_of_nonneg _
                (Forall_delete _ _ loc Htodo)) as Hrest.
  assert (INT_MIN ≤ result_cal st1 + kcal f ≤ INT_MAX) as Hfit.
  { rewrite Hc1. unfold INT_MIN. lia. }
  unfold iteration. rewrite Hscan. cbn [mbind outcome_bind].
  rewrite (GreedyPositive.accept_eq total_kcal st1 loc f Hsel Hfit).
  unfold step_with. rewrite <- Hc1, <- Hr1, <- Ht1.
  destruct (result_cal st1 + kcal f <=? total_kcal);
    cbn [mbind outcome_bind];
    rewrite (GreedyPositive.erase_selected_eq _ loc f) by done;
    cbn [todo result protein result_cal protein_location c];
    by rewrite Hloc, Hc.
Qed.

Lemma step_with_inv (total_kcal : Z) (st : state) (loc : nat) (f : Food) :
  loop_inv total_kcal st → todo st !! loc = Some f →
  loop_inv total_kcal (step_with total_kcal st loc f).
Proof.
  intros [Htodo Hp Hcal Hnn Hbud Hrange] Hf.
  assert (0 ≤ kcal f) as Hkf.
  { by apply (Forall_lookup_1 _ _ _ _ Htodo Hf). }
  pose proof (GreedyPositive.total_kcal_of_delete _ _ _ Hf) as Hdel.
  pose proof (Forall_delete _ _ loc Htodo) as Htodo'.
  pose proof (GreedyPositive.total_kcal_of_nonneg _ Htodo') as Hrest.
  unfold step_with.
  destruct (Z.leb_spec (result_cal st + kcal f) total_kcal);
    constructor; cbn [todo result protein result_cal protein_location c];
    try done; try lia.
  rewrite GreedyPositive.total_kcal_of_snoc. lia.
Qed.

(** Induction over the run: a property kept by every [step_with] of a
    record of greatest protein holds at the end, and the run completes. *)
Lemma while_loop_choices (Q : state → Prop) (total_kcal : Z) :
  (∀ st loc f,
     loop_inv total_kcal st → Q st → todo st !! loc = Some f →
     Forall (λ g, protein_g g ≤ protein_g f) (todo st) →
     Q (step_with total_kcal st loc f)) →
  ∀ size st,
    loop_inv total_kcal st → Q st → size = length (todo st) →
    ∃ st', while_loop total_kcal size st = Ok st' ∧ Q st' ∧
           loop_inv total_kcal st' ∧ todo st' = [].
Proof.
  intros Hstep size. induction size as [|size IH]; intros st Hinv HQ Hsize.
  - exists st. split_and!; try done. by apply nil_length_inv.
  - destruct (iteration_chooses total_kcal st Hinv)
      as (loc & f & Hf & Hmax & _ & Hit).
    { intros Hnil. by rewrite Hnil in Hsize. }
    cbn [while_loop]. rewrite Hsize, Hit. cbn [mbind outcome_bind].
    apply IH.
    + by apply step_with_inv.
    + by apply Hstep.
    + cbn. rewrite length_delete by (by eexists). lia.
Qed.

Section positive.
Variables (foods : FoodVector) (total_kcal : Z).
Hypothesis positive : Forall (λ f, 0 ≤ kcal f ∧ 0 < protein_g f) foods.
Hypothesis in_range : total_kcal_of foods ≤ INT_MAX.

Lemma init_inv : loop_inv total_kcal (init foods).
Proof. constructor; cbn; try done; lia. Qed.

(** The records are accepted in the order of their protein, greatest
    first: the result is sorted by protein, not increasing. *)
Theorem greedy_sorted_by_protein :
  ∃ res, greedy_max_protein foods total_kcal = Ok res ∧
         StronglySorted protein_ge res.
Proof.
  destruct (while_loop_choices
              (λ st, StronglySorted protein_ge (result st) ∧
                     ∀ r t, r ∈ result st → t ∈ todo st → protein_ge r t)
              total_kcal) with (size := length foods) (st := init foods)
    as (st' & Hrun & [Hsorted _] & _).
  - intros st loc f _ [Hs Hload] Hf Hmax. unfold step_with.
    assert (∀ t, t ∈ delete loc (todo st) → t ∈ todo st) as Hsub.
    { intros t. apply list_elem_of_delete_inv. }
    destruct (result_cal st + kcal f <=? total_kcal);
      cbn [todo result protein result_cal protein_location c].
    + split.
      * apply StronglySorted_app_2; [|done|by repeat constructor].
        intros r x Hr Hx. apply list_elem_of_singleton in Hx as ->.
        apply Hload; [done|]. by eapply list_elem_of_lookup_2.
      * intros r t Hr Ht. apply elem_of_app in Hr as [Hr|Hr].
        -- apply Hload; [done | by apply Hsub].
        -- apply list_elem_of_singleton in Hr as ->.
           by apply (proj1 (Forall_forall _ _) Hmax), Hsub.
    + split; [done|]. intros r t Hr Ht. apply Hload; [done | by apply Hsub].
  - apply init_inv.
  - cbn. split; [constructor|]. intros r t Hr. by apply elem_of_nil in Hr.
  - done.
  - exists (result st'). unfold greedy_max_protein. by rewrite Hrun.
Qed.

(** When the whole input fits the budget, every record is accepted: the
    result is a permutation of the input. *)
Theorem greedy_all_fit :
  total_kcal_of foods ≤ total_kcal →
  ∃ res, greedy_max_protein foods total_kcal = Ok res ∧ res ≡ₚ foods.
Proof.
  intros Hall.
  destruct (while_loop_choices
              (λ st, result_cal st + total_kcal_of (todo st) ≤ total_kcal ∧
                     result st ++ todo st ≡ₚ foods)
              total_kcal) with (size := length foods) (st := init foods)
    as (st' & Hrun & [_ Hperm] & _ & Hnil).
  - intros st loc f [Htodo _ _ _ _ _] [Hsum Hperm] Hf _. unfold step_with.
    pose proof (GreedyPositive.total_kcal_of_delete _ _ _ Hf) as Hdel.
    pose proof (GreedyPositive.total_kcal_of_nonneg _
                  (Forall_delete _ _ loc Htodo)) as Hrest.
    destruct (Z.leb_spec (result_cal st + kcal f) total_kcal); [|lia].
    cbn [todo result protein result_cal protein_location c].
    split; [lia|]. rewrite <- Hperm, <- app_assoc. cbn [app].
    by rewrite <- delete_Permutation.
  - apply init_inv.
  - unfold init. cbn [result_cal todo result]. split; [lia | done].
  - done.
  - exists (result st'). unfold greedy_max_protein. rewrite Hrun.
    split; [done|]. by rewrite Hnil, app_nil_r in Hperm.
Qed.

(** When every record alone is over the budget, every record is
    rejected and the result is empty. *)
Theorem greedy_nothing_fits :
  Forall (λ f, total_kcal < kcal f) foods →
  greedy_max_protein foods total_kcal = Ok [].
Proof.
  intros Hover.
  destruct (while_loop_choices
              (λ st, result st = [] ∧ result_cal st = 0 ∧
                     Forall (λ f, total_kcal < kcal f) (todo st))
              total_kcal) with (size := length foods) (st := init foods)
    as (st' & Hrun & (Hres & _) & _).
  - intros st loc f _ (Hres & Hcal & Htodo) Hf _. unfold step_with.
    pose proof (Forall_lookup_1 _ _ _ _ Htodo Hf) as Hkf. cbn in Hkf.
    destruct (Z.leb_spec (result_cal st + kcal f) total_kcal); [lia|].
    cbn [todo result protein result_cal protein_location c].
    split_and!; [done | done | by apply Forall_delete].
  - apply init_inv.
  - done.
  - done.
  - unfold greedy_max_protein. by rewrite Hrun, <- Hres.
Qed.

(** The first choice: the first record of greatest protein heads the
    result when it fits the budget. *)
Theorem greedy_first_choice :
  foods ≠ [] →
  ∃ loc f,
    foods !! loc = Some f ∧
    Forall (λ g, protein_g g ≤ protein_g f) foods ∧
    (∀ j g, (j < loc)%nat → foods !! j = Some g →
            protein_g g < protein_g f) ∧
    (kcal f ≤ total_kcal →
     ∃ rest, greedy_max_protein foods total_kcal = Ok (f :: rest)).
Proof.
  intros Hne.
  destruct (iteration_chooses total_kcal (init foods) init_inv Hne)
    as (loc & f & Hf & Hmax & Hfirst & Hit).
  cbn [todo init] in Hf, Hmax, Hfirst, Hit.
  exists loc, f. split_and!; [done..|]. intros Hfits.
  destruct (while_loop_choices (λ st, ∃ rest, result st = f :: rest)
              total_kcal)
    with (size := length (delete loc foods))
         (st := step_with total_kcal (init foods) loc f)
    as (st' & Hrun & [rest Hrest] & _).
  - intros st loc' f' _ [rest Hrest] _ _. unfold step_with.
    destruct (result_cal st + kcal f' <=? total_kcal);
      cbn [todo result protein result_cal protein_location c];
      rewrite Hrest; by eexists.
  - apply step_with_inv; [apply init_inv | done].
  - unfold step_with, init.
    cbn [todo result protein result_cal protein_location c].
    destruct (Z.leb_spec (0 + kcal f) total_kcal); [|lia]. by eexists.
  - done.
  - exists rest. unfold greedy_max_protein.
    destruct foods as [|g foods'] eqn:Hfoods; [done|].
    cbn [length while_loop]. cbn [length] in Hit. rewrite Hit.
    cbn [mbind outcome_bind].
    assert (length foods' = length (delete loc (g :: foods'))) as ->.
    { rewrite length_delete by (by eexists). cbn. lia. }
    by rewrite Hrun, <- Hrest.
Qed.

End positive.

Lemma greedy_first_choice_witness :
  ∃ loc f,
    [Scenario.A; Scenario.B; Scenario.C] !! loc = Some f ∧
    Forall (λ g, protein_g g ≤ protein_g f)
      [Scenario.A; Scenario.B; Scenario.C] ∧
    (∀ j g, (j < loc)%nat →
            [Scenario.A; Scenario.B; Scenario.C] !! j = Some g →
            protein_g g < protein_g f) ∧
    (kcal f ≤ 300 →
     ∃ rest,
       greedy_max_protein [Scenario.A; Scenario.B; Scenario.C] 300
       = Ok (f :: rest)).
Proof.
  apply (greedy_first_choice [Scenario.A; Scenario.B; Scenario.C] 300).
  - repeat constructor; done.
  - by vm_compute.
  - done.
Defined.

Lemma greedy_sorted_by_protein_witness :
  ∃ res,
    greedy_max_protein [Scenario.A; Scenario.B; Scenario.C] 300 = Ok res ∧
    StronglySorted protein_ge res.
Proof.
  apply (greedy_sorted_by_protein [Scenario.A; Scenario.B; Scenario.C] 300).
  - repeat constructor; done.
  - by vm_compute.
Defined.

Lemma greedy_all_fit_witness :
  ∃ res,
    greedy_max_protein [Scenario.A; Scenario.B; Scenario.C] 450 = Ok res ∧
    res ≡ₚ [Scenario.A; Scenario.B; Scenario.C].
Proof.
  apply (greedy_all_fit [Scenario.A; Scenario.B; Scenario.C] 450).
  - repeat constructor; done.
  - by vm_compute.
  - by vm_compute.
Defined.

Lemma greedy_nothing_fits_witness :
  greedy_max_protein [Scenario.A; Scenario.B; Scenario.C] 99 = Ok [].
Proof.
  apply (greedy_nothing_fits [Scenario.A; Scenario.B; Scenario.C] 99).
  - repeat constructor; done.
  - by vm_compute.
  - repeat constructor; done.
Defined.

End GreedyOrder.

(** ** sum_food_vector *)

Module SumFacts.

Lemma protein_total_nonneg (l : FoodVector) :
  Forall Food_inv l → 0 ≤ total_protein_of l.
Proof.
  unfold total_protein_of.
  induction 1 as [|f l (_ & _ & _ & _ & Hp) _ IH]; simpl; lia.
Qed.

Lemma kcal_total_nonneg (l : FoodVector) :
  Forall Food_inv l → 0 ≤ total_kcal_of l.
Proof.
  unfold total_kcal_of.
  induction 1 as [|f l (_ & _ & _ & Hk & _) _ IH]; simpl; lia.
Qed.

Lemma int_add_in_range (a b : Z) :
  INT_MIN ≤ a + b ≤ INT_MAX → int_add a b = Ok (a + b).
Proof. intros H. unfold int_add. by rewrite bool_decide_eq_true_2. Qed.

Lemma int_add_overflow (a b : Z) :
  INT_MAX < a + b → int_add a b = Fault SignedOverflow.
Proof.
  intros H. unfold int_add. rewrite bool_decide_eq_false_2; [done|lia].
Qed.

Lemma sum_loop_spec (foods : FoodVector) (k p : Z) :
  Forall Food_inv foods → 0 ≤ k ≤ INT_MAX → 0 ≤ p ≤ INT_MAX →
  sum_loop foods k p =
  if bool_decide (k + total_kcal_of foods ≤ INT_MAX ∧
                  p + total_protein_of foods ≤ INT_MAX)
  then Ok (k + total_kcal_of foods, p + total_protein_of foods)
  else Fault SignedOverflow.
Proof.
  intros Hinv. revert k p.
  induction Hinv as [|f rest Hf Hrest IH]; intros k p Hk Hp.
  - cbn [sum_loop]. change (total_kcal_of []) with 0.
    change (total_protein_of []) with 0. rewrite !Z.add_0_r.
    by rewrite bool_decide_eq_true_2 by lia.
  - pose proof (kcal_total_nonneg _ Hrest) as Hkr.
    pose proof (protein_total_nonneg _ Hrest) as Hpr.
    destruct Hf as (_ & _ & _ & Hkf & Hpf).
    change (total_kcal_of (f :: rest)) with (kcal f + total_kcal_of rest).
    change (total_protein_of (f :: rest))
      with (protein_g f + total_protein_of rest).
    cbn [sum_loop].
    destruct (decide (k + kcal f ≤ INT_MAX)) as [Hk1|Hk1]; cycle 1.
    { rewrite (int_add_overflow k (kcal f)) by lia. cbn.
      case_bool_decide; [lia | done]. }
    rewrite (int_add_in_range k (kcal f)) by (unfold INT_MIN; lia).
    cbn [mbind outcome_bind].
    destruct (decide (p + protein_g f ≤ INT_MAX)) as [Hp1|Hp1]; cycle 1.
    { rewrite (int_add_overflow p (protein_g f)) by lia. cbn.
      case_bool_decide; [lia | done]. }
    rewrite (int_add_in_range p (protein_g f)) by (unfold INT_MIN; lia).
    cbn [mbind outcome_bind]. rewrite IH by lia.
    rewrite !Z.add_assoc. done.
Qed.

(** On well-formed records the two totals are the sums of the calories
    and of the protein when both fit an [int]; otherwise an addition
    overflows on the way. *)
Theorem sum_food_vector_totals (foods : FoodVector) :
  Forall Food_inv foods →
  sum_food_vector foods =
  if bool_decide (total_kcal_of foods ≤ INT_MAX ∧
                  total_protein_of foods ≤ INT_MAX)
  then Ok (total_kcal_of foods, total_protein_of foods)
  else Fault SignedOverflow.
Proof.
  intros Hinv. unfold sum_food_vector.
  rewrite sum_loop_spec by (done || (unfold INT_MAX; lia)).
  by rewrite !Z.add_0_l.
Qed.

Lemma sum_food_vector_totals_witness :
  sum_food_vector [Scenario.A; Scenario.B; Scenario.C] =
  if bool_decide
       (total_kcal_of [Scenario.A; Scenario.B; Scenario.C] ≤ INT_MAX ∧
        total_protein_of [Scenario.A; Scenario.B; Scenario.C] ≤ INT_MAX)
  then Ok (total_kcal_of [Scenario.A; Scenario.B; Scenario.C],
           total_protein_of [Scenario.A; Scenario.B; Scenario.C])
  else Fault SignedOverflow.
Proof.
  apply (sum_food_vector_totals [Scenario.A; Scenario.B; Scenario.C]).
  by repeat constructor.
Defined.

End SumFacts.

(** ** main *)

Module MainFacts.
Import Greedy.

Lemma Forall_submseteq {A : Type} (P : A → Prop) (l1 l2 : list A) :
  l1 ⊆+ l2 → Forall P l2 → Forall P l1.
Proof.
  intros Hsub Hall. apply Forall_forall. intros x Hx.
  apply (proj1 (Forall_forall _ _) Hall). by eapply elem_of_submseteq.
Qed.

Lemma sum_kcal_spec (l : FoodVector) (s : Z) :
  Forall (λ f, 0 ≤ kcal f) l → 0 ≤ s → s + total_kcal_of l ≤ INT_MAX →
  Main.sum_kcal l s = Ok (s + total_kcal_of l).
Proof.
  intros Hl. revert s. induction Hl as [|f l Hf Hl IH]; intros s Hs Hfit.
  - cbn. change (total_kcal_of []) with 0. by rewrite Z.add_0_r.
  - change (total_kcal_of (f :: l)) with (kcal f + total_kcal_of l) in *.
    assert (0 ≤ total_kcal_of l) as Hrest.
    { clear -Hl. unfold total_kcal_of. induction Hl; simpl; lia. }
    cbn [Main.sum_kcal].
    rewrite (SumFacts.int_add_in_range s (kcal f)) by (unfold INT_MIN; lia).
    cbn [mbind outcome_bind]. rewrite IH by lia. by rewrite Z.add_assoc.
Qed.

Lemma total_kcal_of_bound (l : FoodVector) (M : Z) :
  Forall (λ f, kcal f ≤ M) l → total_kcal_of l ≤ M * Z.of_nat (length l).
Proof.
  unfold total_kcal_of.
  induction 1 as [|f l Hf _ IH]; simpl length; simpl foldr; lia.
Qed.

(** [main] on a loaded vector whose records all have positive protein:
    the bounds 2000 and 20 of the filter keep every sum far inside the
    [int] range, the selection completes, and the sum that is printed
    is the calories of the selection, at most the budget of 5000. *)
Theorem main_positive_protein (source : FoodVector) :
  Forall (λ f, 0 ≤ kcal f ∧ 0 < protein_g f) source →
  ∃ foods res,
    filter_food_vector source Main.min_kcal Main.max_kcal Main.n = Ok foods ∧
    greedy_max_protein foods Main.total_kcal = Ok res ∧
    Main.main_from source = Ok (total_kcal_of res) ∧
    0 ≤ total_kcal_of res ≤ 5000.
Proof.
  intros Hsrc. unfold Main.main_from.
  pose proof (filter_food_vector_eq source
                Main.min_kcal Main.max_kcal Main.n) as Hfilter.
  set (foods := take (Z.to_nat Main.n)
                  (filter (λ r, admitted Main.min_kcal Main.max_kcal r)
                     source)) in *.
  assert (Forall (λ f, 0 ≤ kcal f ∧ 0 < protein_g f) foods) as Hpos.
  { eapply Forall_submseteq; [|exact Hsrc]. apply sublist_submseteq.
    etrans; [apply sublist_take | apply sublist_filter]. }
  assert (length foods ≤ 20)%nat as Hlen.
  { unfold foods. rewrite length_take. unfold Main.n. lia. }
  assert (total_kcal_of foods ≤ INT_MAX) as Hfit.
  { etrans; [apply (total_kcal_of_bound foods 2000)|].
    - apply Forall_take.
      eapply Forall_impl; [apply FilterMore.Forall_filter_admitted|].
      intros r Hr. apply admitted_spec in Hr. unfold Main.max_kcal in Hr.
      lia.
    - unfold INT_MAX. lia. }
  destruct (GreedyPositive.while_loop_inv Main.total_kcal (length foods)
              (init foods)) as (st' & Hrun & Hinv & Hnil); [|done|].
  { constructor; cbn; try done; unfold Main.total_kcal; lia. }
  pose proof (GreedyMore.while_loop_submseteq _ _ _ _ Hrun) as Hres.
  rewrite Hnil, app_nil_r in Hres. cbn in Hres.
  destruct Hinv as [_ _ Hcal Hnn Hbud _].
  assert (Forall (λ f, 0 ≤ kcal f) (result st')) as Hnonneg.
  { eapply Forall_submseteq; [exact Hres|].
    eapply Forall_impl; [exact Hpos|]. by intros f [? _]. }
  exists foods, (result st'). rewrite Hfilter. cbn [mbind outcome_bind].
  unfold greedy_max_protein. rewrite Hrun. cbn [mbind outcome_bind].
  split; [done|]. split; [done|]. unfold Main.total_kcal in Hbud. split.
  - rewrite sum_kcal_spec; [done | done | lia |].
    unfold INT_MAX. lia.
  - lia.
Qed.

Lemma main_positive_protein_witness :
  ∃ foods res,
    filter_food_vector [Scenario.A; Scenario.B; Scenario.C]
      Main.min_kcal Main.max_kcal Main.n = Ok foods ∧
    greedy_max_protein foods Main.total_kcal = Ok res ∧
    Main.main_from [Scenario.A; Scenario.B; Scenario.C]
    = Ok (total_kcal_of res) ∧
    0 ≤ total_kcal_of res ≤ 5000.
Proof.
  apply (main_positive_protein [Scenario.A; Scenario.B; Scenario.C]).
  repeat constructor; done.
Defined.

End MainFacts.

(** ** exhaustive_max_protein: shape of the result and faults *)

Module ExhaustiveMore.
Import Exhaustive.

(** The trial subset of a mask is a subsequence of the records. *)
Lemma pick_loop_sublist (foods : FoodVector) (bits : Z) (n : nat)
    (candidate : FoodVector) :
  for_loop n 0%nat (pick_body foods bits) [] = Ok candidate →
  candidate `sublist_of` foods.
Proof.
  intros Hrun.
  apply (ExhaustiveBudget.for_loop_invariant
           (λ j cand, cand `sublist_of` take j foods)) in Hrun.
  - etrans; [exact Hrun | apply sublist_take].
  - intros j cand cand' _ Hcand. unfold pick_body, at_index.
    destruct (bit_set bits j).
    + destruct (foods !! j) as [f|] eqn:Hf; [cbn | done].
      intros [= <-]. rewrite (take_S_r _ _ _ Hf).
      by apply sublist_app.
    + intros [= <-]. etrans; [exact Hcand|].
      destruct (foods !! j) as [f|] eqn:Hf.
      * rewrite (take_S_r _ _ _ Hf). by apply sublist_inserts_r.
      * apply lookup_ge_None in Hf. by rewrite !take_ge by lia.
  - done.
Qed.

Lemma sum_loop_result (candidate : FoodVector) (count i : nat)
    (st st' : state) :
  for_loop count i (sum_body candidate) st = Ok st' →
  result st' = result st ∧ total_protein_best st' = total_protein_best st.
Proof.
  intros Hrun.
  apply (ExhaustiveBudget.for_loop_invariant
           (λ _ t, result t = result st ∧
                   total_protein_best t = total_protein_best st))
    in Hrun; [done | | done].
  intros j t t' _ [Hr Hb]. unfold sum_body.
  destruct (at_index candidate j) as [f|]; cbn; [|done].
  destruct (int_add (total_calories t) (kcal f)); cbn; [|done].
  destruct (int_add (total_protein t) (protein_g f)); cbn; [|done].
  by intros [= <-].
Qed.

(** After an iteration the best subset is the old one or the trial
    subset of the mask. *)
Lemma iteration_result (foods : FoodVector) (total_kcal : Z) (n : nat)
    (bits : Z) (st st' : state) :
  iteration foods total_kcal n bits st = Ok st' →
  result st' = result st ∨
  for_loop n 0%nat (pick_body foods bits) [] = Ok (result st').
Proof.
  unfold iteration.
  destruct (for_loop n 0%nat (pick_body foods bits) []) as [cand|] eqn:Hpick;
    [cbn | done].
  destruct (for_loop _ _ (sum_body cand) st) as [st1|] eqn:Hsum; [cbn | done].
  apply sum_loop_result in Hsum as [Hr1 _].
  unfold update.
  destruct (total_calories st1 <=? total_kcal);
    [|intros [= <-]; by left].
  case_match; [|intros [= <-]; by left].
  rewrite ExhaustiveBudget.copy_loop_eq by done.
  rewrite drop_0, app_nil_l. cbn [mbind outcome_bind].
  intros [= <-]. by right.
Qed.

Lemma bits_loop_sublist (foods : FoodVector) (total_kcal : Z)
    (n remaining : nat) (bits : Z) (st st' : state) :
  result st `sublist_of` foods →
  bits_loop foods total_kcal n remaining bits st = Ok st' →
  result st' `sublist_of` foods.
Proof.
  revert bits st.
  induction remaining as [|remaining IH]; intros bits st Hst; cbn [bits_loop].
  - by intros [= <-].
  - destruct (iteration foods total_kcal n bits st) as [st1|] eqn:Hit;
      [cbn | done].
    apply IH. apply iteration_result in Hit as [-> | Hpick]; [done|].
    by eapply pick_loop_sublist.
Qed.

(** A completed search returns a subsequence of the records, in their
    order. *)
Theorem exhaustive_result_sublist (foods res : FoodVector) (total_kcal : Z) :
  exhaustive_max_protein foods total_kcal = Ok res →
  res `sublist_of` foods.
Proof.
  unfold exhaustive_max_protein. case_decide; [|done].
  destruct (bits_loop _ _ _ _ _ _) as [st|] eqn:Hrun; [cbn | done].
  intros [= <-]. eapply bits_loop_sublist; [|exact Hrun].
  apply sublist_nil_l.
Qed.

Lemma exhaustive_result_sublist_witness :
  [Scenario.B] `sublist_of` [Scenario.A; Scenario.B; Scenario.C].
Proof.
  apply (exhaustive_result_sublist [Scenario.A; Scenario.B; Scenario.C]
           [Scenario.B] 300).
  by vm_compute.
Defined.




(** A counted loop faults only with a fault of its body. *)
Lemma for_loop_fault {St : Type} (P : fault → Prop)
    (body : nat → St → outcome St) (count i : nat) (s : St) (e : fault) :
  (∀ j t e', (i ≤ j < i + count)%nat → body j t = Fault e' → P e') →
  for_loop count i body s = Fault e → P e.
Proof.
  revert i s. induction count as [|count IH]; intros i s Hbody; [done|].
  cbn [for_loop]. destruct (body i s) as [t|e'] eqn:Hb; cbn.
  - apply IH. intros j u e'' Hj. apply Hbody. lia.
  - intros [= <-]. apply (Hbody i s); [lia | done].
Qed.

Lemma iteration_fault (foods : FoodVector) (total_kcal : Z) (bits : Z)
    (st : state) (e : fault) :
  iteration foods total_kcal (length foods) bits st = Fault e →
  e = SignedOverflow.
Proof.
  unfold iteration.
  destruct (for_loop _ _ (pick_body foods bits) []) as [cand|e1] eqn:Hpick;
    cbn.
  - destruct (for_loop _ _ (sum_body cand) st) as [st1|e2] eqn:Hsum; cbn.
    + unfold update. repeat case_match; try done.
      by rewrite ExhaustiveBudget.copy_loop_eq.
    + intros [= <-]. revert Hsum.
      apply (for_loop_fault (λ e', e' = SignedOverflow)).
      intros j t e3 Hj. unfold sum_body.
      destruct (at_index_lt cand j) as (f & _ & ->); [lia|]. cbn.
      unfold int_add. repeat case_bool_decide; cbn; congruence.
  - intros _. exfalso. revert Hpick.
    apply (for_loop_fault (λ _, False)).
    intros j t e3 Hj. unfold pick_body.
    destruct (at_index_lt foods j) as (f & _ & ->); [lia|].
    by destruct (bit_set bits j).
Qed.

(** The search reads no indeterminate variable and no position outside
    a vector: it can stop only at the assertion, on 64 records or more,
    or at an overflowing addition. *)
Theorem exhaustive_faults (foods : FoodVector) (total_kcal : Z) (e : fault) :
  exhaustive_max_protein foods total_kcal = Fault e →
  e = SignedOverflow ∨ (e = AssertionFailed ∧ (64 ≤ length foods)%nat).
Proof.
  unfold exhaustive_max_protein. case_decide as Hn; cycle 1.
  { intros [= <-]. right. split; [done | lia]. }
  destruct (bits_loop _ _ _ _ _ _) as [st|e'] eqn:Hrun; [done|].
  cbn. intros [= <-]. left. revert Hrun.
  generalize (2 ^ length foods)%nat 0 init.
  intros remaining. induction remaining as [|remaining IH]; intros bits s;
    [done|].
  cbn [bits_loop].
  destruct (iteration foods total_kcal (length foods) bits s)
    as [s1|e''] eqn:Hit; cbn.
  - apply IH.
  - intros [= <-]. by eapply iteration_fault.
Qed.

(** *** Completion *)

Lemma pick_body_total (foods : FoodVector) (bits : Z) (i : nat)
    (candidate : FoodVector) :
  (i < length foods)%nat →
  ∃ candidate', pick_body foods bits i candidate = Ok candidate'.
Proof.
  intros Hi. unfold pick_body.
  destruct (at_index_lt foods i) as (f & _ & ->); [lia|].
  destruct (bit_set bits i); by eexists.
Qed.

Lemma pick_loop_total (foods : FoodVector) (bits : Z) (count i : nat)
    (candidate : FoodVector) :
  (i + count ≤ length foods)%nat →
  ∃ candidate',
    for_loop count i (pick_body foods bits) candidate = Ok candidate'.
Proof.
  revert i candidate. induction count as [|count IH]; intros i cand Hi.
  - by exists cand.
  - cbn [for_loop].
    destruct (pick_body_total foods bits i cand) as [cand' ->]; [lia|].
    cbn [mbind outcome_bind]. apply IH. lia.
Qed.

Lemma totals_sublist (l1 l2 : FoodVector) :
  l1 `sublist_of` l2 → Forall Food_inv l2 →
  total_kcal_of l1 ≤ total_kcal_of l2 ∧
  total_protein_of l1 ≤ total_protein_of l2.
Proof.
  unfold total_kcal_of, total_protein_of.
  induction 1 as [|x l1 l2 _ IH|x l1 l2 _ IH]; intros Hinv.
  - done.
  - apply Forall_cons in Hinv as [_ Hinv]. specialize (IH Hinv). cbn. lia.
  - apply Forall_cons in Hinv as [(_ & _ & _ & Hk & Hp) Hinv].
    specialize (IH Hinv). cbn. lia.
Qed.

Lemma sum_body_eq (candidate : FoodVector) (i : nat) (st : state)
    (f : Food) :
  candidate !! i = Some f →
  INT_MIN ≤ total_calories st + kcal f ≤ INT_MAX →
  INT_MIN ≤ total_protein st + protein_g f ≤ INT_MAX →
  sum_body candidate i st =
  Ok {| total_calories := total_calories st + kcal f;
        total_protein := total_protein st + protein_g f;
        total_protein_best := total_protein_best st;
        result := result st |}.
Proof.
  intros Hf Hk Hp. unfold sum_body. rewrite (at_index_lookup _ _ _ Hf).
  cbn [mbind outcome_bind].
  rewrite (SumFacts.int_add_in_range _ _ Hk). cbn [mbind outcome_bind].
  by rewrite (SumFacts.int_add_in_range _ _ Hp).
Qed.

(** The summing loop completes when the totals stay in range. *)
Lemma sum_loop_total (candidate : FoodVector) (count i : nat) (st : state) :
  Forall Food_inv candidate →
  (i + count = length candidate)%nat →
  0 ≤ total_calories st → 0 ≤ total_protein st →
  total_calories st + total_kcal_of (drop i candidate) ≤ INT_MAX →
  total_protein st + total_protein_of (drop i candidate) ≤ INT_MAX →
  ∃ st', for_loop count i (sum_body candidate) st = Ok st' ∧
         total_calories st'
         = total_calories st + total_kcal_of (drop i candidate) ∧
         total_protein st'
         = total_protein st + total_protein_of (drop i candidate).
Proof.
  intros Hinv. revert i st.
  induction count as [|count IH]; intros i st Hi Hk Hp Hkr Hpr.
  - exists st. rewrite drop_ge by lia. split; [done|].
    change (total_kcal_of []) with 0. change (total_protein_of []) with 0.
    lia.
  - destruct (lookup_lt_is_Some_2 candidate i) as [f Hf]; [lia|].
    rewrite (drop_S _ _ _ Hf) in *.
    change (total_kcal_of (f :: drop (S i) candidate))
      with (kcal f + total_kcal_of (drop (S i) candidate)) in *.
    change (total_protein_of (f :: drop (S i) candidate))
      with (protein_g f + total_protein_of (drop (S i) candidate)) in *.
    pose proof (Forall_lookup_1 _ _ _ _ Hinv Hf) as (_ & _ & _ & Hkf & Hpf).
    assert (Forall Food_inv (drop (S i) candidate)) as Hd
      by by apply Forall_drop.
    pose proof (SumFacts.kcal_total_nonneg _ Hd) as Hk0.
    pose proof (SumFacts.protein_total_nonneg _ Hd) as Hp0.
    cbn [for_loop].
    rewrite (sum_body_eq _ _ _ _ Hf) by (unfold INT_MIN; lia).
    cbn [mbind outcome_bind].
    edestruct (IH (S i)) as (st' & -> & Hk' & Hp'); cycle -1.
    { exists st'. split; [done|]. rewrite Hk', Hp'.
      cbn [total_calories total_protein]. lia. }
    all: cbn [total_calories total_protein]; lia.
Qed.

Lemma iteration_total (foods : FoodVector) (total_kcal : Z) (bits : Z)
    (st : state) :
  Forall Food_inv foods →
  0 ≤ total_calories st → 0 ≤ total_protein st →
  total_calories st + total_kcal_of foods ≤ INT_MAX →
  total_protein st + total_protein_of foods ≤ INT_MAX →
  ∃ st', iteration foods total_kcal (length foods) bits st = Ok st' ∧
         0 ≤ total_calories st' ≤ total_calories st + total_kcal_of foods ∧
         0 ≤ total_protein st'
           ≤ total_protein st + total_protein_of foods.
Proof.
  intros Hinv Hk Hp Hkr Hpr. unfold iteration.
  destruct (pick_loop_total foods bits (length foods) 0 []) as [cand Hpick];
    [lia|].
  rewrite Hpick. cbn [mbind outcome_bind].
  pose proof (pick_loop_sublist _ _ _ _ Hpick) as Hsub.
  pose proof (ExhaustiveBudget.pick_loop_inv foods Hinv _ _ _ Hpick)
    as Hcand.
  destruct (totals_sublist _ _ Hsub Hinv) as [Hks Hps].
  pose proof (SumFacts.kcal_total_nonneg _ Hcand) as Hk0.
  pose proof (SumFacts.protein_total_nonneg _ Hcand) as Hp0.
  destruct (sum_loop_total cand (length cand) 0 st Hcand)
    as (st1 & -> & Hk1 & Hp1); [done | done | done | | |].
  { rewrite drop_0. lia. }
  { rewrite drop_0. lia. }
  rewrite drop_0 in Hk1, Hp1. cbn [mbind outcome_bind].
  unfold update.
  destruct (total_calories st1 <=? total_kcal);
    [|exists st1; split; [done | lia]].
  case_match; [|exists st1; split; [done | lia]].
  rewrite ExhaustiveBudget.copy_loop_eq by done.
  cbn [mbind outcome_bind]. eexists. split; [done|].
  cbn [total_calories total_protein]. lia.
Qed.

Lemma bits_loop_total (foods : FoodVector) (total_kcal : Z)
    (remaining : nat) (bits : Z) (st : state) :
  Forall Food_inv foods →
  0 ≤ total_calories st → 0 ≤ total_protein st →
  total_calories st + Z.of_nat remaining * total_kcal_of foods ≤ INT_MAX →
  total_protein st + Z.of_nat remaining * total_protein_of foods
  ≤ INT_MAX →
  ∃ st', bits_loop foods total_kcal (length foods) remaining bits st
         = Ok st'.
Proof.
  intros Hinv. revert bits st.
  pose proof (SumFacts.kcal_total_nonneg _ Hinv) as Hk0.
  pose proof (SumFacts.protein_total_nonneg _ Hinv) as Hp0.
  induction remaining as [|remaining IH]; intros bits st Hk Hp Hkr Hpr.
  - by exists st.
  - cbn [bits_loop].
    destruct (iteration_total foods total_kcal bits st Hinv Hk Hp)
      as (st1 & -> & Hk1 & Hp1); [nia | nia |].
    cbn [mbind outcome_bind]. apply IH; nia.
Qed.

(** The search completes when 2^n times the calories of all records,
    and 2^n times their protein, fit an [int]: the running totals are
    never reset, so they grow with every mask. *)
Theorem exhaustive_completes (foods : FoodVector) (total_kcal : Z) :
  Forall Food_inv foods →
  (length foods < 64)%nat →
  2 ^ Z.of_nat (length foods) * total_kcal_of foods ≤ INT_MAX →
  2 ^ Z.of_nat (length foods) * total_protein_of foods ≤ INT_MAX →
  ∃ res, exhaustive_max_protein foods total_kcal = Ok res.
Proof.
  intros Hinv Hn Hk Hp. unfold exhaustive_max_protein.
  rewrite decide_True by done.
  destruct (bits_loop_total foods total_kcal (2 ^ length foods) 0 init Hinv)
    as [st ->]; cbn [total_calories total_protein init]; try done.
  - by rewrite Nat2Z.inj_pow.
  - by rewrite Nat2Z.inj_pow.
  - by eexists.
Qed.

Lemma exhaustive_completes_witness :
  ∃ res,
    exhaustive_max_protein [Scenario.A; Scenario.B; Scenario.C] 300
    = Ok res.
Proof.
  apply (exhaustive_completes [Scenario.A; Scenario.B; Scenario.C] 300).
  - repeat constructor; done.
  - cbn. lia.
  - by vm_compute.
  - by vm_compute.
Defined.

Lemma exhaustive_faults_witness :
  SignedOverflow = SignedOverflow ∨
  (SignedOverflow = AssertionFailed ∧
   (64 ≤ length [Samples.huge; Samples.huge])%nat).
Proof.
  apply (exhaustive_faults [Samples.huge; Samples.huge] 0 SignedOverflow).
  by vm_compute.
Defined.

End ExhaustiveMore.

(** ** load_usda_abbrev *)

Module LoaderFacts.
Import Loader Samples.

(** *** Strings *)

Lemma append_cons (a : Ascii.ascii) (s t : string) :
  String.append (String a s) t = String a (String.append s t).
Proof. reflexivity. Qed.

Lemma append_nil (t : string) : String.append EmptyString t = t.
Proof. reflexivity. Qed.

Lemma substring_0_length (s : string) (m : nat) :
  (m ≤ String.length s)%nat →
  String.length (String.substring 0 m s) = m.
Proof.
  revert m. induction s as [|ch s IH]; intros [|m] Hm; cbn in *;
    try done; try lia.
  rewrite IH; [done | lia].
Qed.

Lemma substring_0_append (s t : string) :
  String.substring 0 (String.length s) (String.append s t) = s.
Proof.
  induction s as [|ch s IH].
  - rewrite append_nil. by destruct t.
  - rewrite append_cons. cbn. by rewrite IH.
Qed.

Lemma get_length_append (s : string) (ch : Ascii.ascii) (t : string) :
  String.get (String.length s) (String.append s (String ch t)) = Some ch.
Proof.
  induction s as [|a s IH]; [done|]. rewrite append_cons. by cbn.
Qed.

Lemma length_append (s t : string) :
  String.length (String.append s t)
  = (String.length s + String.length t)%nat.
Proof.
  induction s as [|a s IH]; [done|]. rewrite append_cons. cbn.
  by rewrite IH.
Qed.

(** A string whose last character is [ch] is its front part followed
    by [ch]. *)
Lemma split_last (s : string) (m : nat) (ch : Ascii.ascii) :
  String.length s = S m → String.get m s = Some ch →
  s = String.append (String.substring 0 m s) (String ch EmptyString).
Proof.
  revert m. induction s as [|a s IH]; intros m Hlen Hget; [done|].
  destruct m as [|m]; cbn in *.
  - destruct s; [|done]. by injection Hget as ->.
  - rewrite append_cons. f_equal. apply IH; [lia | done].
Qed.

Lemma remove_tildes_some (field output : string) :
  remove_tildes field = Some output →
  output ≠ "" ∧
  field = String "~" (String.append output (String "~" EmptyString)).
Proof.
  unfold remove_tildes.
  case_bool_decide as Hc; [done|]. intros [= <-].
  assert (¬ (String.length field < 3)%nat) as Hlen by tauto.
  assert (String.get 0 field = Some "~"%char) as Hf.
  { destruct (decide (String.get 0 field = Some "~"%char)); tauto. }
  assert (String.get (String.length field - 1) field = Some "~"%char)
    as Hb.
  { destruct (decide (String.get (String.length field - 1) field
                      = Some "~"%char)); tauto. }
  clear Hc.
  destruct field as [|a s]; [done|]. cbn in Hf. injection Hf as ->.
  cbn [String.length] in *.
  replace (S (String.length s) - 1)%nat with (String.length s) in Hb by lia.
  replace (S (String.length s) - 2)%nat
    with (String.length s - 1)%nat by lia.
  destruct (String.length s) as [|m] eqn:Hs; [lia|].
  cbn [String.get] in Hb. cbn [String.substring].
  replace (S m - 1)%nat with m by lia.
  split.
  - intros Hempty.
    pose proof (substring_0_length s m ltac:(lia)) as Hl.
    rewrite Hempty in Hl. cbn in Hl. lia.
  - f_equal. by apply split_last.
Qed.

Lemma remove_tildes_wrapped (output : string) :
  output ≠ "" →
  remove_tildes
    (String "~" (String.append output (String "~" EmptyString)))
  = Some output.
Proof.
  intros Hne. unfold remove_tildes. cbn [String.length String.get].
  rewrite length_append. cbn [String.length].
  replace (S (String.length output + 1) - 1)%nat
    with (S (String.length output)) by lia.
  replace (S (String.length output + 1) - 2)%nat
    with (String.length output) by lia.
  cbn [String.get String.substring].
  rewrite get_length_append, substring_0_append.
  rewrite bool_decide_eq_false_2; [done|].
  intros [Hlen|[?|?]]; [|done..].
  destruct output; [done|]. cbn in Hlen. lia.
Qed.

(** [remove_tildes] succeeds exactly on a non-empty text between two
    tildes, and returns that text. *)
Theorem remove_tildes_spec (field output : string) :
  remove_tildes field = Some output ↔
  output ≠ "" ∧
  field = String "~" (String.append output (String "~" EmptyString)).
Proof.
  split; [apply remove_tildes_some|].
  intros [Hne ->]. by apply remove_tildes_wrapped.
Qed.

(** *** Reading fields *)

Lemma getline_split_free (delim : Ascii.ascii) (f : string) :
  delim_free delim f → getline_split delim f = (f, EmptyString).
Proof.
  induction f as [|a f IH]; [done|]. intros [Ha Hf]. cbn.
  rewrite (proj2 (Ascii.eqb_neq a delim) Ha). by rewrite IH.
Qed.

Lemma getline_split_append (delim : Ascii.ascii) (f rest : string) :
  delim_free delim f →
  getline_split delim (String.append f (String delim rest)) = (f, rest).
Proof.
  induction f as [|a f IH].
  - intros _. rewrite append_nil. cbn. by rewrite Ascii.eqb_refl.
  - intros [Ha Hf]. rewrite append_cons. cbn.
    rewrite (proj2 (Ascii.eqb_neq a delim) Ha). by rewrite IH.
Qed.

Lemma getline_append (delim : Ascii.ascii) (f rest : string) :
  delim_free delim f →
  getline delim (String.append f (String delim rest)) = Some (f, rest).
Proof.
  intros Hf. rewrite <- (getline_split_append delim f rest Hf).
  by destruct f.
Qed.

Lemma getline_all_empty (fuel : nat) (delim : Ascii.ascii) :
  getline_all fuel delim EmptyString = [].
Proof. by destruct fuel. Qed.

(** The remaining characters decrease with every successful call. *)
Lemma getline_split_shorter (delim : Ascii.ascii) (a : Ascii.ascii)
    (s : string) :
  (String.length (getline_split delim (String a s)).2
   ≤ String.length s)%nat.
Proof.
  revert a. induction s as [|b s IH]; intros a; cbn.
  - by destruct (Ascii.eqb a delim).
  - destruct (Ascii.eqb a delim); [cbn; lia|].
    specialize (IH b). cbn in IH.
    destruct (Ascii.eqb b delim); [cbn in *; lia|].
    destruct (getline_split delim s) as [x rest]. cbn in *. lia.
Qed.

(** The number of characters is fuel enough: more fuel reads the same
    fields. *)
Lemma getline_all_fuel (delim : Ascii.ascii) (fuel fuel' : nat)
    (s : string) :
  (String.length s ≤ fuel)%nat → (String.length s ≤ fuel')%nat →
  getline_all fuel delim s = getline_all fuel' delim s.
Proof.
  revert fuel' s. induction fuel as [|fuel IH]; intros fuel' s H1 H2.
  - destruct s; [|cbn in H1; lia]. by rewrite !getline_all_empty.
  - destruct s as [|a s]; [by rewrite !getline_all_empty|].
    destruct fuel' as [|fuel']; [cbn in H2; lia|].
    cbn [getline_all getline].
    pose proof (getline_split_shorter delim a s) as Hshort.
    destruct (getline_split delim (String a s)) as [x rest].
    cbn in H1, H2, Hshort. f_equal. apply IH; lia.
Qed.

Lemma concat_cons_cons (sep x y : string) (l : list string) :
  String.concat sep (x :: y :: l)
  = String.append x (String.append sep (String.concat sep (y :: l))).
Proof. reflexivity. Qed.

Lemma getline_all_concat (delim : Ascii.ascii) (fields : list string)
    (fuel : nat) :
  Forall (delim_free delim) fields →
  last fields ≠ Some EmptyString →
  (String.length (String.concat (String delim EmptyString) fields)
   ≤ fuel)%nat →
  getline_all fuel delim (String.concat (String delim EmptyString) fields)
  = fields.
Proof.
  intros Hfree. revert fuel.
  induction Hfree as [|f fields Hf Hfree IH]; intros fuel Hlast Hfuel.
  - apply getline_all_empty.
  - destruct fields as [|g fields].
    + cbn [String.concat] in *. destruct f as [|a f]; [done|].
      destruct fuel as [|fuel]; [cbn in Hfuel; lia|].
      cbn [getline_all getline]. rewrite (getline_split_free _ _ Hf).
      by rewrite getline_all_empty.
    + rewrite concat_cons_cons in *. rewrite append_cons, append_nil in *.
      rewrite length_append in Hfuel. cbn [String.length] in Hfuel.
      destruct fuel as [|fuel]; [lia|].
      cbn [getline_all]. rewrite (getline_append _ _ _ Hf).
      f_equal. apply IH; [done | lia].
Qed.

(** Reading back a line written with [^] between the fields gives the
    fields, when no field holds a [^] and the last field is not empty. *)
Theorem read_fields_join (fields : list string) :
  Forall (delim_free "^") fields →
  last fields ≠ Some EmptyString →
  read_fields (join_fields fields) = fields.
Proof.
  intros Hfree Hlast. unfold read_fields, join_fields.
  by apply (getline_all_concat "^" fields).
Qed.

Lemma read_fields_join_witness :
  read_fields (join_fields ["01001"; "~BUTTER~"; ""; "717"])
  = ["01001"; "~BUTTER~"; ""; "717"].
Proof.
  apply (read_fields_join ["01001"; "~BUTTER~"; ""; "717"]).
  - repeat constructor; by intros [=].
  - by intros [=].
Defined.

(** *** The loader *)

Lemma new_Food_inv (description amount : string)
    (amount_g kcal protein_g : Z) (food : Food) :
  new_Food description amount amount_g kcal protein_g = Ok food →
  Food_inv food.
Proof.
  unfold new_Food. case_bool_decide as Hinv; [|done]. by intros [= <-].
Qed.

Section load.
Variable parse_mil : string → option Z.

(** What a line that does not end the load has done. *)
Lemma load_line_some (line : string) (result result' : FoodVector) :
  load_line parse_mil line result = Ok (Some result') →
  length (read_fields line) = 53%nat ∧
  (result' = result ∨ ∃ food, Food_inv food ∧ result' = result ++ [food]).
Proof.
  unfold load_line. case_bool_decide as Hlen; [done|].
  intros Hrun. split; [done|]. revert Hrun.
  destruct (at_index (read_fields line) 1) as [descr_field|]; cbn; [|done].
  destruct (at_index (read_fields line) 3) as [kcal_field|]; cbn; [|done].
  destruct (at_index (read_fields line) 4) as [protein_field|]; cbn;
    [|done].
  destruct (at_index (read_fields line) 48) as [grams_field|]; cbn; [|done].
  destruct (at_index (read_fields line) 49) as [amount_field|]; cbn;
    [|done].
  repeat case_match; try (intros [= <-]; by left).
  match goal with
  | |- context [new_Food ?d ?a ?g ?k ?p] =>
      destruct (new_Food d a g k p) as [food|] eqn:Hfood
  end; cbn; [|done].
  intros [= <-]. right. exists food. split; [|done].
  by eapply new_Food_inv.
Qed.

Lemma load_lines_some (lines : list string) (result foods : FoodVector) :
  Forall Food_inv result →
  load_lines parse_mil lines result = Ok (Some foods) →
  Forall Food_inv foods ∧
  Forall (λ line, length (read_fields line) = 53%nat) lines ∧
  (length foods ≤ length result + length lines)%nat.
Proof.
  revert result. induction lines as [|line lines IH]; intros result Hres.
  - cbn. intros [= <-]. split_and!; [done | done | lia].
  - cbn [load_lines].
    destruct (load_line parse_mil line result) as [[result'|]|] eqn:Hline;
      cbn; [|done..].
    apply load_line_some in Hline as [Hlen Hline]. intros Hrest.
    apply IH in Hrest as (Hfoods & Hlines & Hcount).
    + split_and!; [done | by constructor |].
      destruct Hline as [->|(food & _ & ->)]; [cbn; lia|].
      rewrite length_app in Hcount. cbn in *. lia.
    + destruct Hline as [->|(food & Hfood & ->)]; [done|].
      apply Forall_app. split; [done | by apply Forall_singleton].
Qed.

(** Every record of a loaded vector passed the five assertions of the
    constructor: the texts are not empty and the numbers not negative. *)
Theorem load_records_valid (file : option string) (foods : FoodVector) :
  load_usda_abbrev parse_mil file = Ok (Some foods) →
  Forall Food_inv foods.
Proof.
  destruct file as [content|]; [cbn | done].
  intros Hload. by apply load_lines_some in Hload as (? & _).
Qed.

(** A vector is returned only when every line of the file has exactly
    53 fields; one other line makes the whole load fail. Each line
    gives at most one record. *)
Theorem load_needs_53_fields (content : string) (foods : FoodVector) :
  load_usda_abbrev parse_mil (Some content) = Ok (Some foods) →
  Forall (λ line, length (read_fields line) = 53%nat)
    (read_lines content) ∧
  (length foods ≤ length (read_lines content))%nat.
Proof.
  cbn. intros Hload.
  apply load_lines_some in Hload as (_ & ? & ?); [|done].
  split; [done | cbn in *; lia].
Qed.

(** A field taken after the test on their number is inside the vector. *)
Lemma at_index_53 (fields : list string) (i : nat) :
  length fields = 53%nat → (i < 53)%nat →
  ∃ field, at_index fields i = Ok field.
Proof.
  intros Hlen Hi. destruct (at_index_lt fields i) as (f & _ & ?); [lia|].
  by exists f.
Qed.

Lemma load_line_fault (line : string) (result : FoodVector) (e : fault) :
  load_line parse_mil line result = Fault e →
  e = AssertionFailed ∧ ∃ field z, parse_mil field = Some z ∧ z < 0.
Proof.
  unfold load_line. case_bool_decide as Hlen; [done|].
  destruct (at_index_53 (read_fields line) 1) as [descr_field ->];
    [done | lia |].
  destruct (at_index_53 (read_fields line) 3) as [kcal_field ->];
    [done | lia |].
  destruct (at_index_53 (read_fields line) 4) as [protein_field ->];
    [done | lia |].
  destruct (at_index_53 (read_fields line) 48) as [grams_field ->];
    [done | lia |].
  destruct (at_index_53 (read_fields line) 49) as [amount_field ->];
    [done | lia |].
  cbn [mbind outcome_bind].
  destruct (remove_tildes descr_field) as [d|] eqn:Hd; [|done].
  destruct (remove_tildes amount_field) as [a|] eqn:Ha; [|done].
  destruct (parse_mil grams_field) as [g|] eqn:Hg; [|done].
  destruct (parse_mil kcal_field) as [k|] eqn:Hk; [|done].
  destruct (parse_mil protein_field) as [p|] eqn:Hp; [|done].
  apply remove_tildes_some in Hd as [Hd _].
  apply remove_tildes_some in Ha as [Ha _].
  unfold new_Food. case_bool_decide as Hinv; [done|]. cbn.
  intros [= <-]. split; [done|].
  destruct (decide (g < 0)); [by exists grams_field, g|].
  destruct (decide (k < 0)); [by exists kcal_field, k|].
  destruct (decide (p < 0)); [by exists protein_field, p|].
  exfalso. apply Hinv. split_and!; [done | done | lia..].
Qed.

(** The loader reads no position outside the fields, and the texts it
    hands to the constructor are never empty: it can stop only at an
    assertion on a number, on a field read as a negative number. *)
Theorem load_fault_negative_number (file : option string) (e : fault) :
  load_usda_abbrev parse_mil file = Fault e →
  e = AssertionFailed ∧ ∃ field z, parse_mil field = Some z ∧ z < 0.
Proof.
  destruct file as [content|]; [cbn | done].
  generalize (read_lines content) (@nil Food).
  intros lines. induction lines as [|line lines IH]; intros result; [done|].
  cbn [load_lines].
  destruct (load_line parse_mil line result) as [[result'|]|e'] eqn:Hline;
    cbn; [apply IH | done |].
  intros [= <-]. by eapply load_line_fault.
Qed.

End load.

Lemma load_fault_negative_number_witness :
  AssertionFailed = AssertionFailed ∧
  ∃ field z, parse_negative field = Some z ∧ z < 0.
Proof.
  apply (load_fault_negative_number parse_negative (Some butter_line)
           AssertionFailed).
  by vm_compute.
Defined.

Lemma load_records_valid_witness :
  Forall Food_inv [mkFood "BUTTER,WITH SALT" "1 pat" 1 3 4].
Proof.
  apply (load_records_valid parse_length (Some butter_line)
           [mkFood "BUTTER,WITH SALT" "1 pat" 1 3 4]).
  by vm_compute.
Defined.

Lemma load_needs_53_fields_witness :
  Forall (λ line, length (read_fields line) = 53%nat)
    (read_lines butter_line) ∧
  (length [mkFood "BUTTER,WITH SALT" "1 pat" 1 3 4]
   ≤ length (read_lines butter_line))%nat.
Proof.
  apply (load_needs_53_fields parse_length butter_line
           [mkFood "BUTTER,WITH SALT" "1 pat" 1 3 4]).
  by vm_compute.
Defined.

End LoaderFacts.
